(** * FontToBin: bit-level extraction of a 128-glyph font sheet

    A shallow embedding of [FontToBin.c] and the proofs of its
    specification.  The program reads a 1-bit-per-pixel bitmap holding
    64 glyphs on the top half and 64 on the bottom half, and writes one
    line of binary digits per glyph scanline.

    Conventions of the embedding.
    - A C [int] is a [Z] kept in [-2^31, 2^31) by [wrap_int]; a
      [uint32_t] is a [Z] kept in [0, 2^32) by [wrap_u32].  Sums,
      products, differences and left shifts act on the two's-complement
      bit pattern, as the little-endian targets of the program compute
      them.
    - A shift whose count lies outside 0..31 has no meaning in C and no
      meaning common to the targets (x86 reduces the count modulo 32,
      32-bit ARM yields 0), and so has an array access outside the
      array: both are faults of the [res] monad.
    - [/] and [%] on [int] truncate towards zero: [Z.quot], [Z.rem].
    - Storage that was never written ([malloc]ed cells, locals that a
      short [fread] left alone) holds a value chosen by the
      environment. *)

From Stdlib Require Import ZArith Lia Ascii String Bool Btauto.
From Stdlib Require Import Strings.Byte.
From stdpp Require Import base list.
From coqutil Require Import Z.bitblast.

Local Open Scope Z_scope.

(** ** Machine integers *)

Definition INT_MAX : Z := 2 ^ 31 - 1.
Definition INT_MIN : Z := - 2 ^ 31.

Definition wrap_int (z : Z) : Z := (z + 2 ^ 31) mod 2 ^ 32 - 2 ^ 31.
Definition wrap_u32 (z : Z) : Z := z mod 2 ^ 32.

Definition is_int (z : Z) : Prop := INT_MIN <= z <= INT_MAX.
Definition is_u32 (z : Z) : Prop := 0 <= z < 2 ^ 32.

Definition int_add (a b : Z) : Z := wrap_int (a + b).
Definition int_sub (a b : Z) : Z := wrap_int (a - b).
Definition int_mul (a b : Z) : Z := wrap_int (a * b).

(** ** Faults *)

Inductive fault : Set :=
| ShiftCount    (* shift by a count outside 0..31 *)
| OutOfBounds.  (* array access outside the array *)

Inductive res (A : Type) : Type :=
| Ok (a : A)
| Fault (f : fault).

Arguments Ok {A} a.
Arguments Fault {A} f.

Definition bind {A B : Type} (m : res A) (k : A -> res B) : res B :=
  match m with
  | Ok a => k a
  | Fault f => Fault f
  end.

Notation "'let*' x ':=' m 'in' k" := (bind m (fun x => k))
  (at level 10, x name, m at level 100, k at level 200).

Definition count_ok (n : Z) : bool := (0 <=? n) && (n <? 32).

Definition int_shl (a n : Z) : res Z :=
  if count_ok n then Ok (wrap_int (Z.shiftl a n)) else Fault ShiftCount.

Definition u32_shl (a n : Z) : res Z :=
  if count_ok n then Ok (wrap_u32 (Z.shiftl a n)) else Fault ShiftCount.

Definition u32_shr (a n : Z) : res Z :=
  if count_ok n then Ok (Z.shiftr a n) else Fault ShiftCount.

(** [a[i]] as an rvalue and [a[i] = v], for an [int] index. *)
Definition load (a : list Z) (i : Z) : res Z :=
  if i <? 0 then Fault OutOfBounds
  else match a !! Z.to_nat i with
       | Some w => Ok w
       | None => Fault OutOfBounds
       end.

Definition store (a : list Z) (i : Z) (v : Z) : res (list Z) :=
  if (0 <=? i) && (i <? Z.of_nat (length a))
  then Ok (<[Z.to_nat i := v]> a)
  else Fault OutOfBounds.

(** ** [swapEndian32] *)

Definition swapEndian32 (x : Z) : Z :=
  Z.lor (Z.lor (Z.lor (Z.shiftr x 24)
                      (Z.land (wrap_u32 (Z.shiftl x 8)) 0x00FF0000))
               (Z.land (Z.shiftr x 8) 0x0000FF00))
        (wrap_u32 (Z.shiftl x 24)).

(** Byte [i] of a word, byte 0 being the least significant. *)
Definition byte_of (x i : Z) : Z := (x / 2 ^ (8 * i)) mod 256.

(** ** [toBinary] *)

(** [fprintf(bin, "%d", d)] for a [d] that is 0 or 1, as [(n >> i) & 1]
    is. *)
Definition digit (d : Z) : ascii := if d =? 0 then "0"%char else "1"%char.

(** The character that renders one bit. *)
Definition bit_char (b : bool) : ascii := if b then "1"%char else "0"%char.

(** The digits printed while [i] runs from [k - 1] down to 0. *)
Fixpoint toBinary_loop (n : Z) (k : nat) : res (list ascii) :=
  match k with
  | O => Ok []
  | S k' =>
      let* v := u32_shr n (Z.of_nat k') in
      let* rest := toBinary_loop n k' in
      Ok (digit (Z.land v 1) :: rest)
  end.

Definition newline : ascii := "010"%char.

(** The text [toBinary n width] appends to the stream [bin]. *)
Definition toBinary (n width : Z) : res (list ascii) :=
  let* ds := toBinary_loop n (Z.to_nat (int_sub width 1 + 1)) in
  Ok (ds ++ [newline]).

(** ** [assembleCharacter] *)

(** Line 50: the bit of the upper left pixel of the glyph. *)
Definition glyph_bits (ASCII charWidth charHeight dwordsPerLine : Z) : Z :=
  int_add (int_mul (Z.rem ASCII 64) charWidth)
          (if ASCII <? 64 then 0
           else int_mul (int_mul charHeight dwordsPerLine) 32).

(** Lines 60-61: one scanline that lies in a single word. *)
Definition single_row (data : list Z) (charWidth dword offset : Z) : res Z :=
  let* m := int_shl 1 charWidth in
  let mask := wrap_u32 (int_sub m 1) in
  let* w := load data dword in
  let* v := u32_shr w (int_sub (int_sub 32 charWidth) offset) in
  Ok (Z.land v mask).

(** Lines 71-80: one scanline split over [dword] and [dword + 1]. *)
Definition straddle_row (data : list Z) (charWidth dword offset : Z) : res Z :=
  let* m1 := int_shl 1 (int_sub 32 offset) in
  let mask1 := wrap_u32 (int_sub m1 1) in
  let* w0 := load data dword in
  let tmp1 := Z.land w0 mask1 in
  let k := int_sub charWidth (int_sub 32 offset) in
  let* m2 := int_shl 1 k in
  let* m3 := int_shl (int_sub m2 1) (int_sub 32 k) in
  let mask2 := wrap_u32 m3 in
  let* w1 := load data (int_add dword 1) in
  let tmp2 := Z.land w1 mask2 in
  let* hi := u32_shl tmp1 k in
  let* lo := u32_shr tmp2 (int_sub 32 k) in
  Ok (Z.lor hi lo).

(** The loop control shared by the two loops (lines 58, 62-64 and 69,
    82-84): [n] scanlines remain, [i] is the next row of [character]. *)
Fixpoint scan (row : Z -> Z -> res Z) (dwordsPerLine : Z) (n : nat)
    (i bits dword offset : Z) (character : list Z) : res (list Z) :=
  match n with
  | O => Ok character
  | S n' =>
      let* v := row dword offset in
      let* character' := store character i v in
      let bits' := int_add bits (int_mul dwordsPerLine 32) in
      scan row dwordsPerLine n' (i + 1) bits'
           (Z.quot bits' 32) (Z.rem bits' 32) character'
  end.

Definition onBoundary (offset charWidth : Z) : Z :=
  if int_add offset charWidth >? 32 then 1 else 0.

Definition assembleCharacter (data : list Z)
    (ASCII charWidth charHeight dwordsPerLine : Z) (character : list Z)
  : res (list Z) :=
  let bits := glyph_bits ASCII charWidth charHeight dwordsPerLine in
  let dword := Z.quot bits 32 in
  let offset := Z.rem bits 32 in
  if onBoundary offset charWidth =? 0
  then scan (single_row data charWidth) dwordsPerLine (Z.to_nat charHeight)
            0 bits dword offset character
  else scan (straddle_row data charWidth) dwordsPerLine (Z.to_nat charHeight)
            0 bits dword offset character.

(** The value of [bits] when scanline [s] is processed. *)
Fixpoint bits_at (dwordsPerLine bits : Z) (s : nat) : Z :=
  match s with
  | O => bits
  | S s' => bits_at dwordsPerLine (int_add bits (int_mul dwordsPerLine 32)) s'
  end.

(** The word and the bit that scanline [s] starts at. *)
Definition dword_at (dwordsPerLine bits : Z) (s : nat) : Z :=
  Z.quot (bits_at dwordsPerLine bits s) 32.
Definition offset_at (dwordsPerLine bits : Z) (s : nat) : Z :=
  Z.rem (bits_at dwordsPerLine bits s) 32.

(** The loop with the choice between the two row computations made
    again on every scanline, as the specification words step 2 of the
    algorithm; [assembleCharacter] makes it once, before the loop. *)
Definition checked_row (data : list Z) (charWidth dword offset : Z) : res Z :=
  if onBoundary offset charWidth =? 0
  then single_row data charWidth dword offset
  else straddle_row data charWidth dword offset.

Definition assembleCharacter_rechecked (data : list Z)
    (ASCII charWidth charHeight dwordsPerLine : Z) (character : list Z)
  : res (list Z) :=
  let bits := glyph_bits ASCII charWidth charHeight dwordsPerLine in
  scan (checked_row data charWidth) dwordsPerLine (Z.to_nat charHeight)
       0 bits (Z.quot bits 32) (Z.rem bits 32) character.

(** The value the specification gives for a scanline split over the
    words [w0] and [w1]: [(tmp1 << k) | (tmp2 >> (32 - k))] with
    [k = charWidth - (32 - offset)], [tmp1] the low [32 - offset] bits
    of [w0] and [tmp2] the high [k] bits of [w1], left in place. *)
Definition straddle_value (w0 w1 charWidth offset : Z) : Z :=
  let k := charWidth - (32 - offset) in
  let tmp1 := Z.land w0 (Z.ones (32 - offset)) in
  let tmp2 := Z.land w1 (Z.shiftl (Z.ones k) (32 - k)) in
  Z.lor (Z.shiftl tmp1 k) (Z.shiftr tmp2 (32 - k)).

(** ** The font sheet in the pixel buffer *)

(** The pixel at bit [B] of the flattened buffer; bit 31 of a word is
    the leftmost pixel of its span. *)
Definition pixel (data : list Z) (B : Z) : bool :=
  match data !! Z.to_nat (B / 32) with
  | Some w => Z.testbit w (31 - B mod 32)
  | None => false
  end.

(** The bit that holds pixel [p] of scanline [s] of the glyph of code
    [a]: codes 0..63 are the columns of the upper half of the sheet,
    codes 64..127 those of the lower half. *)
Definition cell_bit (charWidth charHeight dwordsPerLine a s p : Z) : Z :=
  (a / 64 * charHeight + s) * (dwordsPerLine * 32) + a mod 64 * charWidth + p.

(** The buffer holds the pattern [pat code scanline column] in every
    glyph cell. *)
Definition holds_pattern (data : list Z) (charWidth charHeight dwordsPerLine : Z)
    (pat : Z -> Z -> Z -> bool) : Prop :=
  forall a s p,
    0 <= a <= 127 -> 0 <= s < charHeight -> 0 <= p < charWidth ->
    pixel data (cell_bit charWidth charHeight dwordsPerLine a s p) = pat a s p.

(** ** The environment of a run of [main] *)

Inductive stream : Set := Font | Bin.
Inductive block : Set := CharData | Character.

Inductive event : Set :=
| Fopen (s : stream)
| Fclose (s : stream)
| Malloc (b : block)
| Free (b : block).

(** What the storage holds that the program uses before it has written
    it: the three [int] locals of [main] that only [fread] sets, and,
    cell by cell, the two blocks [malloc] grants. *)
Record storage : Type := {
  stack_pixelDataOffset : Z;
  stack_imageWidth : Z;
  stack_imageHeight : Z;
  old_charData : Z -> Z;
  old_character : Z -> Z
}.

Definition zeroed : storage :=
  {| stack_pixelDataOffset := 0; stack_imageWidth := 0;
     stack_imageHeight := 0;
     old_charData := fun _ => 0; old_character := fun _ => 0 |}.

(** What the run finds outside the program.  [size_t] is 64 bits wide. *)
Record env : Type := {
  argv1 : list ascii;               (* the path on the command line *)
  font_file : option (list byte);   (* its bytes; [None]: it cannot be opened *)
  bin_creatable : bool;             (* can font.bin be created? *)
  heap_charData : bool;             (* has the heap room for the pixel buffer? *)
  heap_character : bool;            (* and for the row buffer? *)
  garbage : storage                 (* the content of storage never written *)
}.

(** [malloc(sizeof(uint32_t) * count)]: a negative [count] becomes a
    request of more than 2^63 bytes, which no heap grants.  Cell [i] of
    the block granted holds [old i]. *)
Definition malloc (room : bool) (count : Z) (old : Z -> Z) : option (list Z) :=
  if (0 <=? count) && room
  then Some (map (fun i => wrap_u32 (old (Z.of_nat i)))
                 (seq 0 (Z.to_nat count)))
  else None.

Definition byte_val (b : byte) : Z := Z.of_N (Byte.to_N b).

Definition le32 (b0 b1 b2 b3 : byte) : Z :=
  byte_val b0 + 2 ^ 8 * byte_val b1 + 2 ^ 16 * byte_val b2
  + 2 ^ 24 * byte_val b3.

(** The same four bytes read with the first one most significant. *)
Definition be32 (b0 b1 b2 b3 : byte) : Z :=
  2 ^ 24 * byte_val b0 + 2 ^ 16 * byte_val b1 + 2 ^ 8 * byte_val b2
  + byte_val b3.

(** The 32-bit object whose bytes in memory are [a], [b], [c], [d],
    lowest address first, on a little-endian machine. *)
Definition word_of_bytes (a b c d : Z) : Z :=
  a + 2 ^ 8 * b + 2 ^ 16 * c + 2 ^ 24 * d.

(** [fread(p, 4, 1, font)] with the stream at [pos] and the 32-bit
    object at [p] holding [old]: the position of the stream and the
    object afterwards.  The bytes the file has left at [pos], four at
    most, are copied to the first bytes of the object and the stream
    moves past them; when fewer than four are left the other bytes of
    the object keep what they held. *)
Definition fread32 (file : list byte) (pos old : Z) : Z * Z :=
  match drop (Z.to_nat pos) file with
  | b0 :: b1 :: b2 :: b3 :: _ => (pos + 4, le32 b0 b1 b2 b3)
  | [b0; b1; b2] =>
      (pos + 3, word_of_bytes (byte_val b0) (byte_val b1) (byte_val b2)
                              (byte_of old 3))
  | [b0; b1] =>
      (pos + 2, word_of_bytes (byte_val b0) (byte_val b1)
                              (byte_of old 2) (byte_of old 3))
  | [b0] =>
      (pos + 1, word_of_bytes (byte_val b0) (byte_of old 1)
                              (byte_of old 2) (byte_of old 3))
  | [] => (pos, old)
  end.

(** [fread] into an [int] local that holds [old]. *)
Definition fread_int (file : list byte) (pos old : Z) : Z * Z :=
  let r := fread32 file pos (wrap_u32 old) in
  (fst r, wrap_int (snd r)).

(** [fseek(font, offset, SEEK_SET)] with the stream at [pos]: refused
    for a negative offset. *)
Definition fseek (pos offset : Z) : Z := if offset <? 0 then pos else offset.

Record geometry : Type := {
  pixelDataOffset : Z;
  imageWidth : Z;
  imageHeight : Z;
  charWidth : Z;
  charHeight : Z;
  bytesPerLine : Z;
  dwordsPerLine : Z
}.

(** Lines 111-122, from the stream as [fopen] left it: the position of
    the stream after the three reads, and the locals. *)
Definition read_header (file : list byte) (garbage : storage) : Z * geometry :=
  let r1 := fread_int file (fseek 0 0x0A) (stack_pixelDataOffset garbage) in
  let r2 := fread_int file (fseek (fst r1) (0x0E + 4))
                      (stack_imageWidth garbage) in
  let r3 := fread_int file (fst r2) (stack_imageHeight garbage) in
  let pdo := snd r1 in
  let iw := snd r2 in
  let ih := snd r3 in
  let cw := Z.quot iw 64 in
  let ch := Z.quot ih 2 in
  let bpl := Z.quot (int_mul cw 64) 8 in
  (fst r3,
   {| pixelDataOffset := pdo; imageWidth := iw; imageHeight := ih;
      charWidth := cw; charHeight := ch; bytesPerLine := bpl;
      dwordsPerLine := Z.quot bpl 4 |}).

Definition read_geometry (file : list byte) (garbage : storage) : geometry :=
  snd (read_header file garbage).

Definition header_end (file : list byte) (garbage : storage) : Z :=
  fst (read_header file garbage).

(** Lines 134-139, for row [i]: [n] words remain, [j] is the next. *)
Fixpoint read_row (file : list byte) (dpl : Z) (n : nat)
    (i j pos : Z) (charData : list Z) : res (Z * list Z) :=
  match n with
  | O => Ok (pos, charData)
  | S n' =>
      let idx := int_add (int_mul i dpl) j in
      let* old := load charData idx in
      let r := fread32 file pos old in
      let* charData' := store charData idx (swapEndian32 (snd r)) in
      read_row file dpl n' i (j + 1) (fst r) charData'
  end.

(** Lines 132-140: [n] rows remain, the next one is row [i = n - 1]. *)
Fixpoint read_rows (file : list byte) (dpl : Z) (n : nat)
    (pos : Z) (charData : list Z) : res (list Z) :=
  match n with
  | O => Ok charData
  | S n' =>
      let* r := read_row file dpl (Z.to_nat dpl) (Z.of_nat n') 0 pos charData in
      read_rows file dpl n' (fst r) (snd r)
  end.

(** Lines 131-140, with the stream at [pos]. *)
Definition load_pixels (file : list byte) (pos : Z) (g : geometry)
    (charData : list Z) : res (list Z) :=
  read_rows file (dwordsPerLine g)
            (Z.to_nat (int_sub (imageHeight g) 1 + 1))
            (fseek pos (pixelDataOffset g)) charData.

(** Lines 154-155: the text of rows [j], [j + 1], ... of one glyph. *)
Fixpoint print_rows (character : list Z) (cw : Z) (n : nat) (j : Z)
  : res (list ascii) :=
  match n with
  | O => Ok []
  | S n' =>
      let* v := load character j in
      let* line := toBinary v cw in
      let* rest := print_rows character cw n' (j + 1) in
      Ok (line ++ rest)
  end.

(** Lines 151-156: the text of glyphs [i], [i + 1], ... *)
Fixpoint print_glyphs (data : list Z) (cw ch dpl : Z) (n : nat) (i : Z)
    (character : list Z) : res (list ascii) :=
  match n with
  | O => Ok []
  | S n' =>
      let* character' := assembleCharacter data i cw ch dpl character in
      let* text := print_rows character' cw (Z.to_nat ch) 0 in
      let* rest := print_glyphs data cw ch dpl n' (i + 1) character' in
      Ok (text ++ rest)
  end.

Definition text (s : string) : list ascii := list_ascii_of_string s.

Definition msg_open (path : list ascii) : list ascii :=
  text "Error opening source font file: " ++ path ++ text "." ++ [newline].
Definition msg_create : list ascii :=
  text "Error creating destination bin file font.bin." ++ [newline].
Definition msg_alloc : list ascii :=
  text "Error allocating memory." ++ [newline].

(** What a run leaves behind. *)
Record outcome : Type := {
  status : Z;                       (* the value [main] returns *)
  stderr : list ascii;              (* what was printed to the error stream *)
  font_bin : option (list ascii);   (* what the run left in the font.bin it
                                       created; [None]: it created none *)
  events : list event               (* acquisitions and releases, in order *)
}.

Definition main (e : env) : res outcome :=
  match font_file e with
  | None =>
      Ok {| status := 1; stderr := msg_open (argv1 e); font_bin := None;
            events := [] |}
  | Some file =>
      if negb (bin_creatable e) then
        Ok {| status := 1; stderr := msg_create; font_bin := None;
              events := [Fopen Font; Fclose Font] |}
      else
        let g := read_geometry file (garbage e) in
        match malloc (heap_charData e) (dwordsPerLine g * imageHeight g)
                     (old_charData (garbage e)) with
        | None =>
            Ok {| status := 1; stderr := msg_alloc; font_bin := Some [];
                  events := [Fopen Font; Fopen Bin; Fclose Font; Fclose Bin] |}
        | Some fresh =>
            let* charData :=
              load_pixels file (header_end file (garbage e)) g fresh in
            match malloc (heap_character e) (charHeight g)
                         (old_character (garbage e)) with
            | None =>
                Ok {| status := 1; stderr := msg_alloc; font_bin := Some [];
                      events := [Fopen Font; Fopen Bin; Malloc CharData;
                                 Fclose Font; Fclose Bin; Free CharData] |}
            | Some character =>
                let* out := print_glyphs charData (charWidth g) (charHeight g)
                              (dwordsPerLine g) 128 0 character in
                Ok {| status := 0; stderr := []; font_bin := Some out;
                      events := [Fopen Font; Fopen Bin; Malloc CharData;
                                 Malloc Character; Free CharData;
                                 Free Character; Fclose Font; Fclose Bin] |}
            end
        end
  end.

(** The streams still open and the blocks still allocated after a
    sequence of events. *)
Inductive resource : Set := Stream (s : stream) | Block (b : block).

Definition resource_eqb (a b : resource) : bool :=
  match a, b with
  | Stream Font, Stream Font | Stream Bin, Stream Bin
  | Block CharData, Block CharData | Block Character, Block Character => true
  | _, _ => false
  end.

(** Closing a stream or freeing a block releases it once. *)
Fixpoint release (r : resource) (held : list resource) : list resource :=
  match held with
  | [] => []
  | x :: held' =>
      if resource_eqb r x then held' else x :: release r held'
  end.

Fixpoint held_after (held : list resource) (evs : list event) : list resource :=
  match evs with
  | [] => held
  | Fopen s :: evs' => held_after (held ++ [Stream s]) evs'
  | Malloc b :: evs' => held_after (held ++ [Block b]) evs'
  | Fclose s :: evs' => held_after (release (Stream s) held) evs'
  | Free b :: evs' => held_after (release (Block b) held) evs'
  end.

(** A sequence of events is in order when no stream is opened and no
    block allocated while it is held, and none is closed or freed
    unless it is held. *)
Definition holds (r : resource) (held : list resource) : bool :=
  existsb (resource_eqb r) held.

Fixpoint events_in_order (held : list resource) (evs : list event) : bool :=
  match evs with
  | [] => true
  | Fopen s :: evs' =>
      negb (holds (Stream s) held)
      && events_in_order (held ++ [Stream s]) evs'
  | Malloc b :: evs' =>
      negb (holds (Block b) held)
      && events_in_order (held ++ [Block b]) evs'
  | Fclose s :: evs' =>
      holds (Stream s) held
      && events_in_order (release (Stream s) held) evs'
  | Free b :: evs' =>
      holds (Block b) held
      && events_in_order (release (Block b) held) evs'
  end.

(** The characters of font.bin. *)
Definition bin_char (c : ascii) : Prop :=
  c = "0"%char \/ c = "1"%char \/ c = newline.

(** A run meets one of the failures [main] reports: the source cannot
    be opened, font.bin cannot be created, or one of the two buffers
    cannot be allocated. *)
Definition acquisition_fails (e : env) : Prop :=
  match font_file e with
  | None => True
  | Some file =>
      let g := read_geometry file (garbage e) in
      bin_creatable e = false \/
      malloc (heap_charData e) (dwordsPerLine g * imageHeight g)
             (old_charData (garbage e)) = None \/
      malloc (heap_character e) (charHeight g) (old_character (garbage e))
        = None
  end.

(** * Proofs *)

(** ** Machine integers *)

Lemma wrap_int_id z : is_int z -> wrap_int z = z.
Proof.
  unfold is_int, INT_MIN, INT_MAX, wrap_int. intros H.
  rewrite Z.mod_small; lia.
Qed.

Lemma wrap_int_is_int z : is_int (wrap_int z).
Proof.
  unfold is_int, INT_MIN, INT_MAX, wrap_int.
  pose proof (Z.mod_pos_bound (z + 2 ^ 31) (2 ^ 32)). lia.
Qed.

Lemma wrap_int_mod z : wrap_int z mod 2 ^ 32 = z mod 2 ^ 32.
Proof.
  unfold wrap_int.
  rewrite Zminus_mod_idemp_l. f_equal. lia.
Qed.

Lemma wrap_int_fix z : wrap_int z = z <-> is_int z.
Proof.
  split; [intros <-; apply wrap_int_is_int | apply wrap_int_id].
Qed.

Lemma wrap_u32_int z : wrap_u32 (wrap_int z) = wrap_u32 z.
Proof. apply wrap_int_mod. Qed.

Lemma wrap_u32_is_u32 z : is_u32 (wrap_u32 z).
Proof. apply Z.mod_pos_bound. lia. Qed.

Lemma wrap_int_congr a b :
  a mod 2 ^ 32 = b mod 2 ^ 32 -> wrap_int a = wrap_int b.
Proof.
  intros H. unfold wrap_int. f_equal.
  rewrite <- (Zplus_mod_idemp_l a), <- (Zplus_mod_idemp_l b), H. reflexivity.
Qed.

Lemma wrap_int_add_l a b : wrap_int (wrap_int a + b) = wrap_int (a + b).
Proof.
  apply wrap_int_congr.
  rewrite <- Zplus_mod_idemp_l, wrap_int_mod, Zplus_mod_idemp_l. reflexivity.
Qed.

Lemma wrap_int_add_r a b : wrap_int (a + wrap_int b) = wrap_int (a + b).
Proof. rewrite Z.add_comm, wrap_int_add_l. f_equal. lia. Qed.

Lemma wrap_int_mul_l a b : wrap_int (wrap_int a * b) = wrap_int (a * b).
Proof.
  apply wrap_int_congr.
  rewrite <- Zmult_mod_idemp_l, wrap_int_mod, Zmult_mod_idemp_l. reflexivity.
Qed.

Lemma u32_testbit_high x n : is_u32 x -> 32 <= n -> Z.testbit x n = false.
Proof.
  intros [Hlo Hhi] Hn.
  rewrite <- (Z.mod_small x (2 ^ 32)) by lia.
  apply Z.mod_pow2_bits_high. lia.
Qed.

Lemma u32_of_bits x :
  0 <= x -> (forall n, 32 <= n -> Z.testbit x n = false) -> is_u32 x.
Proof.
  intros Hx H. split; [assumption|].
  destruct (Z.eq_dec x 0) as [->|Hne]; [lia|].
  apply Z.log2_lt_pow2; [lia|].
  destruct (Z.lt_ge_cases (Z.log2 x) 32) as [|Hge]; [assumption|].
  pose proof (Z.bit_log2 x ltac:(lia)) as Hb.
  rewrite H in Hb by assumption. discriminate.
Qed.

(** Bits known to be zero: above a 32-bit word, or below bit 0. *)
Ltac dead_bits :=
  repeat match goal with
  | Hx : is_u32 ?x |- context [Z.testbit ?x ?i] =>
      rewrite (u32_testbit_high x i Hx) by lia
  | |- context [Z.testbit ?x ?i] => rewrite (Z.testbit_neg_r x i) by lia
  end.

(** ** [swapEndian32] *)

Lemma swapEndian32_testbit x n :
  is_u32 x -> 0 <= n ->
  Z.testbit (swapEndian32 x) n =
    if n <? 8 then Z.testbit x (n + 24)
    else if n <? 16 then Z.testbit x (n + 8)
    else if n <? 24 then Z.testbit x (n - 8)
    else if n <? 32 then Z.testbit x (n - 24)
    else false.
Proof.
  intros Hx Hn. unfold swapEndian32, wrap_u32.
  change 0x00FF0000 with (Z.shiftl (Z.ones 8) 16).
  change 0x0000FF00 with (Z.shiftl (Z.ones 8) 8).
  Z.rewrite_bitwise. Z.destruct_ltbs; try lia; simpl; dead_bits; btauto.
Qed.

Lemma swapEndian32_nonneg x : 0 <= x -> 0 <= swapEndian32 x.
Proof.
  intros Hx. unfold swapEndian32, wrap_u32.
  repeat (apply Z.lor_nonneg; split);
    try apply Z.land_nonneg; try apply Z.shiftr_nonneg;
    try (apply Z.mod_pos_bound; lia); auto; right; lia.
Qed.

Lemma swapEndian32_is_u32 x : is_u32 x -> is_u32 (swapEndian32 x).
Proof.
  intros Hx. apply u32_of_bits.
  - apply swapEndian32_nonneg, Hx.
  - intros n Hn. rewrite swapEndian32_testbit by (auto; lia).
    Z.destruct_ltbs; try lia; reflexivity.
Qed.

Lemma swapEndian32_involutive x :
  is_u32 x -> swapEndian32 (swapEndian32 x) = x.
Proof.
  intros Hx. apply Z.bits_inj'. intros n Hn.
  rewrite swapEndian32_testbit by auto using swapEndian32_is_u32.
  Z.destruct_ltbs; rewrite ?swapEndian32_testbit by (auto; lia);
    Z.destruct_ltbs; try lia; dead_bits; auto; f_equal; lia.
Qed.

Lemma byte_of_testbit x i n :
  0 <= i -> 0 <= n ->
  Z.testbit (byte_of x i) n = (n <? 8) && Z.testbit x (n + 8 * i).
Proof.
  intros Hi Hn. unfold byte_of. change 256 with (2 ^ 8).
  rewrite Z.testbit_mod_pow2 by lia.
  rewrite Z.div_pow2_bits by lia. reflexivity.
Qed.

Lemma swapEndian32_byte x i :
  is_u32 x -> 0 <= i < 4 -> byte_of (swapEndian32 x) i = byte_of x (3 - i).
Proof.
  intros Hx Hi. apply Z.bits_inj'. intros n Hn.
  rewrite !byte_of_testbit by lia.
  destruct (Z.ltb_spec n 8); simpl; auto.
  rewrite swapEndian32_testbit by (auto; lia).
  assert (i = 0 \/ i = 1 \/ i = 2 \/ i = 3) as [-> | [-> | [-> | ->]]] by lia;
    Z.destruct_ltbs; try lia; f_equal; lia.
Qed.

(** C9.  [swapEndian32] reverses the four bytes of a 32-bit word: byte
    [i] of the result is byte [3 - i] of the argument (byte 0 swaps with
    byte 3, byte 1 with byte 2), the result is again a 32-bit word, and
    applying [swapEndian32] twice gives the word back. *)
Theorem swapEndian32_reverses_bytes (x : Z) :
  is_u32 x ->
  byte_of (swapEndian32 x) 0 = byte_of x 3 /\
  byte_of (swapEndian32 x) 1 = byte_of x 2 /\
  byte_of (swapEndian32 x) 2 = byte_of x 1 /\
  byte_of (swapEndian32 x) 3 = byte_of x 0 /\
  is_u32 (swapEndian32 x) /\
  swapEndian32 (swapEndian32 x) = x.
Proof.
  intros Hx.
  repeat split; try (apply (swapEndian32_byte x); [assumption | lia]);
    try apply swapEndian32_is_u32; try apply swapEndian32_involutive; auto.
Qed.

Lemma swapEndian32_reverses_bytes_witness :
  swapEndian32 0x01020304 = 0x04030201 /\
  swapEndian32 (swapEndian32 0x01020304) = 0x01020304.
Proof.
  destruct (swapEndian32_reverses_bytes 0x01020304) as (_ & _ & _ & _ & _ & H).
  - vm_compute. split; [discriminate | reflexivity].
  - split; [reflexivity | exact H].
Defined.

(** ** The starting bit offset *)

Lemma rem_mod_nonneg a b : 0 <= a -> 0 < b -> Z.rem a b = a mod b.
Proof. intros Ha Hb. apply Z.rem_mod_nonneg; lia. Qed.

Lemma quot_div_nonneg a b : 0 <= a -> 0 < b -> Z.quot a b = a / b.
Proof. intros Ha Hb. apply Z.quot_div_nonneg; lia. Qed.

(** The value the specification gives for the offset. *)
Lemma glyph_bits_wrap a cw ch dpl :
  0 <= a ->
  glyph_bits a cw ch dpl =
  wrap_int (a mod 64 * cw + (if a <? 64 then 0 else ch * dpl * 32)).
Proof.
  intros Ha. unfold glyph_bits, int_add, int_mul.
  rewrite rem_mod_nonneg by lia.
  rewrite wrap_int_add_l.
  destruct (a <? 64); [reflexivity|].
  rewrite wrap_int_mul_l, wrap_int_add_r. reflexivity.
Qed.

Lemma glyph_bits_is_int a cw ch dpl : is_int (glyph_bits a cw ch dpl).
Proof. apply wrap_int_is_int. Qed.

(** C1, as the code has it.  For a code in 0..127 and positive
    geometry, [assembleCharacter] starts at bit
    [(ASCII mod 64) * charWidth + (ASCII < 64 ? 0 : charHeight *
    dwordsPerLine * 32)] of the buffer exactly when that number fits an
    [int]; the first scanline is then read from word [offset / 32] at
    bit [offset mod 32] from the most significant one. *)
Theorem glyph_bits_spec (a cw ch dpl : Z) :
  0 <= a <= 127 -> 0 < cw -> 0 < ch -> 0 < dpl ->
  let F := a mod 64 * cw + (if a <? 64 then 0 else ch * dpl * 32) in
  (glyph_bits a cw ch dpl = F <-> F <= INT_MAX) /\
  (F <= INT_MAX ->
   forall data character,
     assembleCharacter data a cw ch dpl character =
     scan (if onBoundary (F mod 32) cw =? 0
           then single_row data cw else straddle_row data cw)
          dpl (Z.to_nat ch) 0 F (F / 32) (F mod 32) character).
Proof.
  intros Ha Hcw Hch Hdpl F.
  assert (HF : 0 <= F).
  { subst F. pose proof (Z.mod_pos_bound a 64). destruct (a <? 64); nia. }
  assert (Hfix : F <= INT_MAX -> glyph_bits a cw ch dpl = F).
  { intros Hle. rewrite glyph_bits_wrap by lia. apply wrap_int_id.
    unfold is_int, INT_MIN. lia. }
  split.
  - split; [|exact Hfix].
    intros <-. apply glyph_bits_is_int.
  - intros Hle data character. unfold assembleCharacter.
    rewrite (Hfix Hle), rem_mod_nonneg, quot_div_nonneg by lia.
    destruct (onBoundary (F mod 32) cw =? 0); reflexivity.
Qed.

Lemma glyph_bits_spec_witness :
  glyph_bits 65 8 16 16 = 8200 /\
  assembleCharacter [] 65 8 16 16 [] = Fault OutOfBounds.
Proof.
  destruct (glyph_bits_spec 65 8 16 16) as [[_ H1] H2];
    [lia | lia | lia | lia |].
  split.
  - apply H1. vm_compute. discriminate.
  - rewrite H2 by (vm_compute; discriminate). reflexivity.
Defined.

(** C1 as stated fails once the offset no longer fits an [int]: for a
    sheet of 64 x 67108864 pixels (charWidth 1, charHeight 33554432,
    dwordsPerLine 2) the code computes -2147483648 for code 64, not
    2147483648. *)
Lemma glyph_bits_overflows :
  0 <= 64 <= 127 /\ 0 < 1 /\ 0 < 33554432 /\ 0 < 2 /\
  glyph_bits 64 1 33554432 2 = -2147483648 /\
  glyph_bits 64 1 33554432 2 <>
    64 mod 64 * 1 + (if 64 <? 64 then 0 else 33554432 * 2 * 32).
Proof. vm_compute. intuition discriminate. Qed.

(** C7, as the code has it.  For positive geometry the offset of code
    0 is 0, and for [c] in 0..63 the offset of code [c + 64] is the
    offset of code [c] plus [charHeight * dwordsPerLine * 32] whenever
    [c * charWidth + charHeight * dwordsPerLine * 32] fits an [int]. *)
Theorem glyph_bits_halves (cw ch dpl : Z) :
  0 < cw -> 0 < ch -> 0 < dpl ->
  glyph_bits 0 cw ch dpl = 0 /\
  forall c, 0 <= c <= 63 ->
    c * cw + ch * dpl * 32 <= INT_MAX ->
    glyph_bits (c + 64) cw ch dpl = glyph_bits c cw ch dpl + ch * dpl * 32.
Proof.
  intros Hcw Hch Hdpl. split; [reflexivity|].
  intros c Hc Hle.
  rewrite !glyph_bits_wrap by lia.
  replace ((c + 64) mod 64) with c
    by (rewrite <- (Z.mul_1_l 64) at 1; rewrite Z.mod_add, Z.mod_small; lia).
  rewrite (Z.mod_small c 64) by lia.
  destruct (Z.ltb_spec (c + 64) 64); [lia|].
  destruct (Z.ltb_spec c 64); [|lia].
  unfold INT_MAX in Hle.
  rewrite !wrap_int_id by (unfold is_int, INT_MIN, INT_MAX; nia). lia.
Qed.

Lemma glyph_bits_halves_witness :
  glyph_bits 0 8 16 16 = 0 /\
  glyph_bits (3 + 64) 8 16 16 = glyph_bits 3 8 16 16 + 16 * 16 * 32.
Proof.
  destruct (glyph_bits_halves 8 16 16) as [H0 H]; [lia | lia | lia |].
  split; [exact H0|].
  apply H; [lia | vm_compute; discriminate].
Defined.

(** C7 as stated fails when the offset of the lower half leaves the
    range of [int]: with charWidth 8, charHeight 4194304 and
    dwordsPerLine 16 the offsets of codes 3 and 67 are 24 and
    -2147483624, while the claim asks for 24 + 2147483648. *)
Lemma glyph_bits_halves_overflow :
  0 < 8 /\ 0 < 4194304 /\ 0 < 16 /\ 0 <= 3 <= 63 /\
  glyph_bits 3 8 4194304 16 = 24 /\
  glyph_bits (3 + 64) 8 4194304 16 = -2147483624 /\
  glyph_bits (3 + 64) 8 4194304 16 <>
    glyph_bits 3 8 4194304 16 + 4194304 * 16 * 32.
Proof. vm_compute. intuition discriminate. Qed.

(** ** The scanline loop *)

Lemma bind_Ok {A B} (m : res A) (k : A -> res B) b :
  bind m k = Ok b -> exists a, m = Ok a /\ k a = Ok b.
Proof. destruct m; simpl; [eauto | discriminate]. Qed.

Lemma store_Ok a i v a' :
  store a i v = Ok a' ->
  0 <= i < Z.of_nat (length a) /\ a' = <[Z.to_nat i := v]> a.
Proof.
  unfold store.
  destruct (Z.leb_spec 0 i) as [Hlo|Hlo],
           (Z.ltb_spec i (Z.of_nat (length a))) as [Hhi|Hhi];
    simpl; intros Heq; inversion Heq; auto with lia.
Qed.

Lemma store_in_range a i v :
  0 <= i < Z.of_nat (length a) -> store a i v = Ok (<[Z.to_nat i := v]> a).
Proof.
  intros Hi. unfold store.
  destruct (Z.leb_spec 0 i) as [Hlo|Hlo],
           (Z.ltb_spec i (Z.of_nat (length a))) as [Hhi|Hhi];
    simpl; auto; lia.
Qed.

Lemma load_Ok a i w :
  load a i = Ok w <-> 0 <= i /\ a !! Z.to_nat i = Some w.
Proof.
  unfold load. destruct (Z.ltb_spec i 0) as [Hneg|Hpos].
  - split; [discriminate | lia].
  - destruct (a !! Z.to_nat i) as [w'|]; split.
    + intros [= ->]. auto.
    + intros [_ [= ->]]. reflexivity.
    + discriminate.
    + intros [_ ?]. discriminate.
Qed.

Lemma bits_at_S dpl bits s :
  bits_at dpl bits (S s) = int_add (bits_at dpl bits s) (int_mul dpl 32).
Proof.
  revert bits. induction s as [|s IH]; intros bits; [reflexivity|].
  change (bits_at dpl bits (S (S s)))
    with (bits_at dpl (int_add bits (int_mul dpl 32)) (S s)).
  rewrite IH. reflexivity.
Qed.

Lemma bits_at_is_int dpl bits s : is_int bits -> is_int (bits_at dpl bits s).
Proof.
  destruct s; [auto|]. intros _. rewrite bits_at_S. apply wrap_int_is_int.
Qed.

Lemma bits_at_wrap dpl bits s :
  is_int bits ->
  bits_at dpl bits s = wrap_int (bits + Z.of_nat s * (dpl * 32)).
Proof.
  intros Hb. induction s as [|s IH].
  - simpl. rewrite Z.add_0_r, wrap_int_id; auto.
  - rewrite bits_at_S, IH. unfold int_add, int_mul.
    rewrite wrap_int_add_l, wrap_int_add_r. f_equal. lia.
Qed.

Lemma bits_at_exact dpl bits s :
  0 <= bits -> 0 <= dpl ->
  bits + Z.of_nat s * (dpl * 32) <= INT_MAX ->
  bits_at dpl bits s = bits + Z.of_nat s * (dpl * 32).
Proof.
  intros Hb Hd Hle. unfold INT_MAX in Hle.
  rewrite bits_at_wrap by (unfold is_int, INT_MIN, INT_MAX; nia).
  apply wrap_int_id. unfold is_int, INT_MIN, INT_MAX. nia.
Qed.

Section Scan.
Variable row : Z -> Z -> res Z.
Variable dpl : Z.

(** What a completed loop has done: every scanline was computed by
    [row] at its own word and offset and stored in its own cell, and
    no other cell was touched. *)
Lemma scan_inv n : forall i bits character rows,
  0 <= i ->
  scan row dpl n i bits (Z.quot bits 32) (Z.rem bits 32) character = Ok rows ->
  length rows = length character /\
  (forall s, (s < n)%nat ->
     exists v, row (dword_at dpl bits s) (offset_at dpl bits s) = Ok v /\
               rows !! (Z.to_nat i + s)%nat = Some v) /\
  (forall j, (j < Z.to_nat i)%nat -> rows !! j = character !! j).
Proof.
  induction n as [|n IH]; intros i bits character rows Hi H.
  - inversion H; subst. repeat split; auto. intros s Hs. lia.
  - simpl in H.
    apply bind_Ok in H as (v & Hv & H).
    apply bind_Ok in H as (c' & Hc' & H).
    apply store_Ok in Hc' as [Hrange ->].
    apply IH in H as (Hlen & Hrows & Hlow); [|lia].
    rewrite length_insert in Hlen.
    split; [assumption|]. split.
    + intros [|s] Hs.
      * exists v. split; [exact Hv|].
        rewrite Nat.add_0_r, Hlow by lia.
        apply list_lookup_insert_eq. lia.
      * destruct (Hrows s ltac:(lia)) as (v' & Hv' & Hget).
        exists v'. split; [exact Hv'|].
        rewrite <- Hget. f_equal. lia.
    + intros j Hj. rewrite Hlow by lia.
      apply list_lookup_insert_ne. lia.
Qed.

(** The loop completes when every scanline can be computed and the
    row buffer has a cell for each. *)
Lemma scan_total n : forall i bits character,
  0 <= i ->
  (Z.to_nat i + n <= length character)%nat ->
  (forall s, (s < n)%nat ->
     exists v, row (dword_at dpl bits s) (offset_at dpl bits s) = Ok v) ->
  exists rows,
    scan row dpl n i bits (Z.quot bits 32) (Z.rem bits 32) character = Ok rows.
Proof.
  induction n as [|n IH]; intros i bits character Hi Hlen Hrow.
  - eexists. reflexivity.
  - simpl. destruct (Hrow 0%nat ltac:(lia)) as [v Hv].
    unfold dword_at, offset_at in Hv. simpl in Hv. rewrite Hv. simpl.
    rewrite store_in_range by lia. simpl.
    apply IH; [lia | rewrite length_insert; lia |].
    intros s Hs. apply (Hrow (S s)). lia.
Qed.

(** The loop stops at the first scanline that faults. *)
Lemma scan_fault n i bits character f :
  (0 < n)%nat -> row (Z.quot bits 32) (Z.rem bits 32) = Fault f ->
  scan row dpl n i bits (Z.quot bits 32) (Z.rem bits 32) character = Fault f.
Proof. destruct n; [lia|]. intros _ H. simpl. rewrite H. reflexivity. Qed.
End Scan.

(** Two row computations that agree on the scanlines of a glyph give
    the same loop. *)
Lemma scan_ext row1 row2 dpl n : forall i bits character,
  (forall s, (s < n)%nat ->
     row1 (dword_at dpl bits s) (offset_at dpl bits s) =
     row2 (dword_at dpl bits s) (offset_at dpl bits s)) ->
  scan row1 dpl n i bits (Z.quot bits 32) (Z.rem bits 32) character =
  scan row2 dpl n i bits (Z.quot bits 32) (Z.rem bits 32) character.
Proof.
  induction n as [|n IH]; intros i bits character H; [reflexivity|].
  simpl. pose proof (H 0%nat ltac:(lia)) as H0.
  unfold dword_at, offset_at in H0. simpl in H0. rewrite H0.
  destruct (row2 _ _); simpl; [|reflexivity].
  destruct (store character i a); simpl; [|reflexivity].
  apply IH. intros s Hs. apply (H (S s)). lia.
Qed.

(** ** One scanline *)

Lemma count_ok_true n : 0 <= n < 32 -> count_ok n = true.
Proof. unfold count_ok. intros H. apply andb_true_iff. lia. Qed.

Lemma count_ok_false n : n < 0 \/ 32 <= n -> count_ok n = false.
Proof. unfold count_ok. intros H. apply andb_false_iff. lia. Qed.

Lemma int_sub_id a b : is_int (a - b) -> int_sub a b = a - b.
Proof. apply wrap_int_id. Qed.

Lemma int_add_id a b : is_int (a + b) -> int_add a b = a + b.
Proof. apply wrap_int_id. Qed.

(** [(1 << n) - 1], stored in a [uint32_t], has the low [n] bits set. *)
Lemma low_mask n :
  0 <= n <= 32 ->
  wrap_u32 (int_sub (wrap_int (Z.shiftl 1 n)) 1) = Z.ones n.
Proof.
  intros Hn. unfold int_sub.
  rewrite wrap_u32_int. unfold wrap_u32.
  rewrite Zminus_mod, wrap_int_mod, <- Zminus_mod.
  rewrite Z.shiftl_1_l, Z.ones_equiv, <- Z.sub_1_r.
  assert (0 < 2 ^ n <= 2 ^ 32)
    by (split; [apply Z.pow_pos_nonneg | apply Z.pow_le_mono_r]; lia).
  apply Z.mod_small. lia.
Qed.

Lemma single_row_ok data cw dword offset w :
  1 <= cw <= 31 -> 0 <= offset -> offset + cw <= 32 ->
  load data dword = Ok w ->
  single_row data cw dword offset =
  Ok (Z.land (Z.shiftr w (32 - cw - offset)) (Z.ones cw)).
Proof.
  intros Hcw Hoff Hfit Hw. unfold single_row, int_shl, u32_shr.
  rewrite count_ok_true by lia. simpl.
  rewrite Hw. simpl.
  rewrite low_mask by lia.
  rewrite (int_sub_id 32 cw) by (unfold is_int, INT_MIN, INT_MAX; lia).
  rewrite int_sub_id by (unfold is_int, INT_MIN, INT_MAX; lia).
  rewrite count_ok_true by lia. reflexivity.
Qed.

(** A glyph 32 pixels wide: the mask [(1 << 32) - 1] cannot be
    computed. *)
Lemma single_row_32 data dword offset :
  single_row data 32 dword offset = Fault ShiftCount.
Proof. reflexivity. Qed.

(** Where the count of a shift is taken modulo 32, as on x86, that mask
    is [(1 << 0) - 1 = 0] rather than the 32 ones the width calls for,
    and every row of such a glyph comes out as 0. *)
Remark mask_32_count_mod_32 :
  wrap_u32 (int_sub (wrap_int (Z.shiftl 1 (32 mod 32))) 1) = 0 /\
  Z.ones 32 = 4294967295.
Proof. split; reflexivity. Qed.

(** A scanline that does not fit its word, in the loop for those that
    do. *)
Lemma single_row_misfit data cw dword offset :
  cw <= 32 -> 0 <= offset < 32 -> offset + cw > 32 ->
  exists f, single_row data cw dword offset = Fault f.
Proof.
  intros Hcw Hoff Hout. unfold single_row, int_shl, u32_shr.
  destruct (count_ok cw); simpl; [|eauto].
  destruct (load data dword); simpl; [|eauto].
  rewrite (int_sub_id 32 cw) by (unfold is_int, INT_MIN, INT_MAX; lia).
  rewrite int_sub_id by (unfold is_int, INT_MIN, INT_MAX; lia).
  rewrite count_ok_false by lia. simpl. eauto.
Qed.

Lemma high_mask k :
  1 <= k <= 31 ->
  wrap_u32 (wrap_int (Z.shiftl (int_sub (wrap_int (Z.shiftl 1 k)) 1) (32 - k)))
  = Z.shiftl (Z.ones k) (32 - k).
Proof.
  intros Hk. rewrite wrap_u32_int.
  assert (Hp : 2 ^ 1 <= 2 ^ k <= 2 ^ 31)
    by (split; apply Z.pow_le_mono_r; lia).
  assert (Hm : int_sub (wrap_int (Z.shiftl 1 k)) 1 = Z.ones k).
  { unfold int_sub. rewrite Z.shiftl_1_l, Z.ones_equiv, <- Z.sub_1_r.
    rewrite <- (Z.add_opp_r (wrap_int _)), wrap_int_add_l, Z.add_opp_r.
    apply wrap_int_id. unfold is_int, INT_MIN, INT_MAX. lia. }
  rewrite Hm. unfold wrap_u32. apply Z.mod_small.
  rewrite Z.shiftl_mul_pow2, Z.ones_equiv, <- Z.sub_1_r by lia.
  assert (2 ^ k * 2 ^ (32 - k) = 2 ^ 32)
    by (rewrite <- Z.pow_add_r by lia; f_equal; lia).
  assert (0 < 2 ^ (32 - k)) by (apply Z.pow_pos_nonneg; lia).
  nia.
Qed.

Lemma straddle_row_ok data cw dword offset w0 w1 :
  cw <= 32 -> 0 <= offset < 32 -> offset + cw > 32 ->
  is_int dword -> dword < INT_MAX ->
  load data dword = Ok w0 -> load data (dword + 1) = Ok w1 ->
  straddle_row data cw dword offset = Ok (straddle_value w0 w1 cw offset).
Proof.
  intros Hcw Hoff Hout Hd Hd' Hw0 Hw1.
  unfold straddle_value. set (k := cw - (32 - offset)).
  unfold straddle_row, int_shl, u32_shl, u32_shr.
  rewrite !(int_sub_id 32 offset) by (unfold is_int, INT_MIN, INT_MAX; lia).
  rewrite !(int_sub_id cw) by (unfold is_int, INT_MIN, INT_MAX; lia).
  fold k.
  rewrite !(int_sub_id 32 k)
    by (unfold is_int, INT_MIN, INT_MAX; subst k; lia).
  rewrite (int_add_id dword 1)
    by (unfold is_int, INT_MIN, INT_MAX in *; lia).
  rewrite (count_ok_true (32 - offset)) by lia. simpl.
  rewrite Hw0. simpl.
  rewrite (count_ok_true k) by (subst k; lia). simpl.
  rewrite (count_ok_true (32 - k)) by (subst k; lia). simpl.
  rewrite Hw1. simpl.
  rewrite low_mask by lia.
  rewrite high_mask by (subst k; lia).
  do 2 f_equal.
  unfold wrap_u32. apply Z.mod_small.
  rewrite Z.land_ones, Z.shiftl_mul_pow2 by (subst k; lia).
  pose proof (Z.mod_pos_bound w0 (2 ^ (32 - offset))
                ltac:(apply Z.pow_pos_nonneg; lia)) as Hb.
  assert (2 ^ (32 - offset) * 2 ^ k = 2 ^ cw)
    by (rewrite <- Z.pow_add_r by (subst k; lia); f_equal; subst k; lia).
  assert (2 ^ cw <= 2 ^ 32) by (apply Z.pow_le_mono_r; lia).
  assert (0 < 2 ^ k) by (apply Z.pow_pos_nonneg; subst k; lia).
  nia.
Qed.

(** The bits of the value a single-word scanline yields. *)
Lemma single_value_bits w cw offset n :
  1 <= cw -> 0 <= offset -> offset + cw <= 32 -> 0 <= n ->
  Z.testbit (Z.land (Z.shiftr w (32 - cw - offset)) (Z.ones cw)) n =
  (n <? cw) && Z.testbit w (n + (32 - cw - offset)).
Proof.
  intros Hcw Hoff Hfit Hn.
  rewrite Z.land_spec, Z.shiftr_spec, Z.testbit_ones_nonneg by lia.
  apply andb_comm.
Qed.

Lemma single_value_range w cw offset :
  1 <= cw ->
  0 <= Z.land (Z.shiftr w (32 - cw - offset)) (Z.ones cw) < 2 ^ cw.
Proof.
  intros Hcw. rewrite Z.land_ones by lia.
  apply Z.mod_pos_bound, Z.pow_pos_nonneg; lia.
Qed.

(** The bits of the value a straddling scanline yields: the low
    [32 - offset] bits of [w0] above the high bits of [w1]. *)
Lemma straddle_value_bits w0 w1 cw offset n :
  cw <= 32 -> 0 <= offset < 32 -> offset + cw > 32 -> 0 <= n ->
  Z.testbit (straddle_value w0 w1 cw offset) n =
  if n <? cw - (32 - offset) then Z.testbit w1 (n + (64 - cw - offset))
  else if n <? cw then Z.testbit w0 (n - (cw - (32 - offset)))
  else false.
Proof.
  intros Hcw Hoff Hout Hn. unfold straddle_value.
  Z.rewrite_bitwise. Z.destruct_ltbs; try lia; simpl;
    rewrite ?andb_true_r, ?andb_false_r, ?orb_false_r, ?orb_false_l;
    try reflexivity.
  f_equal. lia.
Qed.

Lemma nonneg_of_bits x N :
  0 <= x -> 0 <= N -> (forall n, N <= n -> Z.testbit x n = false) ->
  x < 2 ^ N.
Proof.
  intros Hx HN H.
  destruct (Z.eq_dec x 0) as [->|Hne]; [apply Z.pow_pos_nonneg; lia|].
  apply Z.log2_lt_pow2; [lia|].
  destruct (Z.lt_ge_cases (Z.log2 x) N) as [|Hge]; [assumption|].
  pose proof (Z.bit_log2 x ltac:(lia)) as Hb.
  rewrite H in Hb by assumption. discriminate.
Qed.

Lemma straddle_value_range w0 w1 cw offset :
  cw <= 32 -> 0 <= offset < 32 -> offset + cw > 32 ->
  0 <= straddle_value w0 w1 cw offset < 2 ^ cw.
Proof.
  intros Hcw Hoff Hout.
  assert (Hnn : 0 <= straddle_value w0 w1 cw offset).
  { unfold straddle_value. apply Z.lor_nonneg. split.
    - apply Z.shiftl_nonneg, Z.land_nonneg. right.
      rewrite Z.ones_equiv. pose proof (Z.pow_pos_nonneg 2 (32 - offset)). lia.
    - apply Z.shiftr_nonneg, Z.land_nonneg. right.
      apply Z.shiftl_nonneg. rewrite Z.ones_equiv.
      pose proof (Z.pow_pos_nonneg 2 (cw - (32 - offset))). lia. }
  split; [exact Hnn|].
  apply nonneg_of_bits; [exact Hnn | lia |].
  intros n Hn. rewrite straddle_value_bits by lia.
  Z.destruct_ltbs; try lia; reflexivity.
Qed.

(** The same value as a sum: the concatenation of the two fragments. *)
Lemma straddle_value_concat w0 w1 cw offset :
  cw <= 32 -> 0 <= offset < 32 -> offset + cw > 32 -> is_u32 w1 ->
  straddle_value w0 w1 cw offset =
  w0 mod 2 ^ (32 - offset) * 2 ^ (cw - (32 - offset))
  + w1 / 2 ^ (32 - (cw - (32 - offset))).
Proof.
  intros Hcw Hoff Hout Hw1.
  rewrite <- Z.land_ones, <- Z.shiftl_mul_pow2, <- Z.shiftr_div_pow2 by lia.
  rewrite <- Z.or_to_plus.
  - apply Z.bits_inj'. intros n Hn.
    rewrite straddle_value_bits by lia.
    Z.rewrite_bitwise. Z.destruct_ltbs; try lia; simpl; dead_bits;
      rewrite ?andb_true_r, ?andb_false_r, ?orb_false_r, ?orb_false_l;
      try reflexivity; f_equal; lia.
  - apply Z.bits_inj'. intros n Hn.
    Z.rewrite_bitwise. Z.destruct_ltbs; try lia; simpl; dead_bits;
      rewrite ?andb_true_r, ?andb_false_r; reflexivity.
Qed.

Lemma int_quot_rem32 b :
  is_int b ->
  - 2 ^ 26 <= Z.quot b 32 <= 2 ^ 26 /\ -32 < Z.rem b 32 < 32.
Proof.
  unfold is_int, INT_MIN, INT_MAX. intros Hb.
  pose proof (Z.quot_rem' b 32) as Hqr.
  pose proof (Z.rem_bound_abs b 32 ltac:(lia)) as Hr.
  lia.
Qed.

(** C2.  Take a scanline [s] of a glyph at most 32 pixels wide whose
    bits straddle the words [dword] and [dword + 1] (offset + charWidth
    > 32, the offset being 0 or more), both words being in the buffer.
    Then the loop body computes, without fault, the value
    [(tmp1 << k) | (tmp2 >> (32 - k))] with [k = charWidth - (32 -
    offset)], [tmp1] the low [32 - offset] bits of word [dword] and
    [tmp2] the masked high [k] bits of word [dword + 1]; that value is
    the concatenation of the two fragments, it has [charWidth] bits with
    the first pixel in the most significant one, and it is what a
    completed [assembleCharacter] has stored in row [s]. *)
Theorem straddling_scanline (data : list Z) (a cw ch dpl : Z)
    (character : list Z) (s : nat) (w0 w1 : Z) :
  let bits := glyph_bits a cw ch dpl in
  let dword := dword_at dpl bits s in
  let offset := offset_at dpl bits s in
  let k := cw - (32 - offset) in
  let v := straddle_value w0 w1 cw offset in
  (s < Z.to_nat ch)%nat ->
  cw <= 32 -> 0 <= offset -> offset + cw > 32 ->
  load data dword = Ok w0 -> load data (dword + 1) = Ok w1 -> is_u32 w1 ->
  straddle_row data cw dword offset = Ok v /\
  v = w0 mod 2 ^ (32 - offset) * 2 ^ k + w1 / 2 ^ (32 - k) /\
  0 <= v < 2 ^ cw /\
  (forall p, 0 <= p < cw ->
     Z.testbit v (cw - 1 - p) =
     if offset + p <? 32 then Z.testbit w0 (31 - offset - p)
     else Z.testbit w1 (63 - offset - p)) /\
  (forall rows,
     assembleCharacter data a cw ch dpl character = Ok rows ->
     rows !! s = Some v).
Proof.
  intros bits dword offset k v Hs Hcw Hoff Hout Hw0 Hw1 Hu1.
  assert (Hint : is_int (bits_at dpl bits s))
    by apply bits_at_is_int, glyph_bits_is_int.
  apply int_quot_rem32 in Hint as [Hq Hr].
  fold (dword_at dpl bits s) in Hq. fold (offset_at dpl bits s) in Hr.
  fold dword in Hq. fold offset in Hr.
  assert (Hrow : straddle_row data cw dword offset = Ok v).
  { apply straddle_row_ok; auto;
      unfold is_int, INT_MIN, INT_MAX; lia. }
  split; [exact Hrow|]. split; [|split; [|split]].
  - apply straddle_value_concat; auto; lia.
  - apply straddle_value_range; lia.
  - intros p Hp. subst v. rewrite straddle_value_bits by lia.
    Z.destruct_ltbs; try lia; f_equal; lia.
  - intros rows Hrows. unfold assembleCharacter in Hrows. fold bits in Hrows.
    destruct (onBoundary (Z.rem bits 32) cw =? 0);
      apply scan_inv in Hrows as (_ & Hrows & _); try lia;
      destruct (Hrows s Hs) as (v' & Hv' & Hget);
      fold dword offset in Hv'; rewrite Nat.add_0_l in Hget.
    + destruct (single_row_misfit data cw dword offset) as [f Hf]; try lia.
      congruence.
    + congruence.
Qed.

Lemma straddling_scanline_witness :
  straddle_row [2; 2684354560] 5 0 30 = Ok 21 /\
  assembleCharacter [2; 2684354560] 6 5 1 10 [0] = Ok [21].
Proof.
  destruct (straddling_scanline [2; 2684354560] 6 5 1 10 [0] 0%nat
              2 2684354560) as (Hrow & _ & _ & _ & Hcall).
  - vm_compute. lia.
  - lia.
  - vm_compute. discriminate.
  - vm_compute. reflexivity.
  - reflexivity.
  - reflexivity.
  - split; vm_compute; [discriminate | reflexivity].
  - split; [exact Hrow | reflexivity].
Defined.

(** ** Scanlines that lie in one word *)

(** A scanline that fits its word, in the loop for those that do not. *)
Lemma straddle_row_misfit data cw dword offset :
  1 <= cw -> 0 <= offset < 32 -> offset + cw <= 32 ->
  exists f, straddle_row data cw dword offset = Fault f.
Proof.
  intros Hcw Hoff Hfit. unfold straddle_row, int_shl.
  rewrite !(int_sub_id 32 offset) by (unfold is_int, INT_MIN, INT_MAX; lia).
  rewrite !(int_sub_id cw) by (unfold is_int, INT_MIN, INT_MAX; lia).
  destruct (count_ok (32 - offset)); cbn [bind]; [|eauto].
  destruct (load data dword); cbn [bind]; [|eauto].
  destruct (Z.eq_dec (cw - (32 - offset)) 0) as [Hk|Hk].
  - rewrite Hk. change (count_ok 0) with true. cbn [bind].
    change (int_sub 32 0) with 32. change (count_ok 32) with false.
    cbn [bind]. eauto.
  - rewrite (count_ok_false (cw - (32 - offset))) by lia. cbn [bind]. eauto.
Qed.

(** For widths up to 31 the single-word loop does what the
    specification says: it shifts the word right by [32 - charWidth -
    offset] and keeps the low [charWidth] bits, the first pixel on
    top. *)
Lemma single_word_scanline (data : list Z) (a cw ch dpl : Z)
    (character : list Z) (s : nat) (w : Z) :
  let bits := glyph_bits a cw ch dpl in
  let dword := dword_at dpl bits s in
  let offset := offset_at dpl bits s in
  let v := Z.land (Z.shiftr w (32 - cw - offset)) (Z.ones cw) in
  (s < Z.to_nat ch)%nat ->
  1 <= cw <= 31 -> 0 <= offset -> offset + cw <= 32 ->
  load data dword = Ok w ->
  single_row data cw dword offset = Ok v /\
  0 <= v < 2 ^ cw /\
  (forall p, 0 <= p < cw ->
     Z.testbit v (cw - 1 - p) = Z.testbit w (31 - offset - p)) /\
  (forall rows,
     assembleCharacter data a cw ch dpl character = Ok rows ->
     rows !! s = Some v).
Proof.
  intros bits dword offset v Hs Hcw Hoff Hfit Hw.
  assert (Hrow : single_row data cw dword offset = Ok v)
    by (apply single_row_ok; auto).
  split; [exact Hrow|]. split; [apply single_value_range; lia|]. split.
  - intros p Hp. subst v. rewrite single_value_bits by lia.
    destruct (Z.ltb_spec (cw - 1 - p) cw); [|lia]. simpl. f_equal. lia.
  - intros rows Hrows. unfold assembleCharacter in Hrows. fold bits in Hrows.
    destruct (onBoundary (Z.rem bits 32) cw =? 0);
      apply scan_inv in Hrows as (_ & Hrows & _); try lia;
      destruct (Hrows s Hs) as (v' & Hv' & Hget);
      fold dword offset in Hv'; rewrite Nat.add_0_l in Hget.
    + congruence.
    + destruct (straddle_row_misfit data cw dword offset) as [f Hf]; try lia.
      congruence.
Qed.

(** ** Glyphs 32 pixels wide *)

Lemma wrap_int_divide z : (32 | z) -> (32 | wrap_int z).
Proof.
  intros [q ->]. unfold wrap_int.
  rewrite Z.mod_eq by lia.
  exists (q - 2 ^ 27 * ((q * 32 + 2 ^ 31) / 2 ^ 32)). lia.
Qed.

Lemma glyph_bits_32_aligned a ch dpl : Z.rem (glyph_bits a 32 ch dpl) 32 = 0.
Proof.
  apply Z.rem_divide; [lia|].
  unfold glyph_bits, int_add, int_mul.
  apply wrap_int_divide, Z.divide_add_r.
  - apply wrap_int_divide, Z.divide_factor_r.
  - destruct (a <? 64); [apply Z.divide_0_r|].
    apply wrap_int_divide, Z.divide_factor_r.
Qed.

(** C4, at the width the claim allows and the code misses.  A glyph 32
    pixels wide starts every scanline at offset 0 and fits one word, so
    the claim asks for the whole word; the code first computes the mask
    as [(1 << 32) - 1], a shift of an [int] by its full width, and no
    row is produced for any code, buffer or height. *)
Theorem single_word_width_32 (data : list Z) (a ch dpl : Z)
    (character : list Z) :
  0 < ch ->
  offset_at dpl (glyph_bits a 32 ch dpl) 0 = 0 /\
  onBoundary 0 32 = 0 /\
  assembleCharacter data a 32 ch dpl character = Fault ShiftCount.
Proof.
  intros Hch.
  pose proof (glyph_bits_32_aligned a ch dpl) as Hoff.
  split; [exact Hoff|]. split; [reflexivity|].
  unfold assembleCharacter. rewrite Hoff.
  change (onBoundary 0 32 =? 0) with true. cbv iota.
  rewrite <- Hoff at 2.
  apply (scan_fault (single_row data 32)); [lia|].
  apply single_row_32.
Qed.

Lemma single_word_width_32_witness :
  assembleCharacter (replicate 128 4294967295) 0 32 1 64 [0]
  = Fault ShiftCount.
Proof.
  apply (single_word_width_32 (replicate 128 4294967295) 0 1 64 [0]). lia.
Defined.

(** ** The branch taken before the loop *)

(** While the bit offsets stay within [int], every scanline has the
    offset of the first one. *)
Lemma offset_at_stable dpl bits ch s :
  0 <= bits -> 0 <= dpl -> bits + (ch - 1) * (dpl * 32) <= INT_MAX ->
  (s < Z.to_nat ch)%nat ->
  bits_at dpl bits s = bits + Z.of_nat s * (dpl * 32) /\
  offset_at dpl bits s = Z.rem bits 32.
Proof.
  intros Hb Hdpl Hlast Hs. unfold offset_at.
  assert (Hle : bits + Z.of_nat s * (dpl * 32) <= INT_MAX) by nia.
  rewrite bits_at_exact by assumption.
  split; [reflexivity|].
  rewrite !rem_mod_nonneg by nia.
  replace (bits + Z.of_nat s * (dpl * 32))
    with (bits + Z.of_nat s * dpl * 32) by lia.
  apply Z.mod_add. lia.
Qed.

Lemma assembleCharacter_is_rechecked data a cw ch dpl character :
  0 <= glyph_bits a cw ch dpl -> 0 <= dpl ->
  glyph_bits a cw ch dpl + (ch - 1) * (dpl * 32) <= INT_MAX ->
  assembleCharacter data a cw ch dpl character =
  assembleCharacter_rechecked data a cw ch dpl character.
Proof.
  intros Hb Hdpl Hlast.
  unfold assembleCharacter, assembleCharacter_rechecked.
  destruct (onBoundary (Z.rem (glyph_bits a cw ch dpl) 32) cw =? 0) eqn:Hon;
    apply scan_ext; intros s Hs; unfold checked_row;
    destruct (offset_at_stable dpl _ ch s Hb Hdpl Hlast Hs) as [_ ->];
    rewrite Hon; reflexivity.
Qed.

(** C10, as the code has it.  When the bit offsets of all scanlines of
    the glyph are representable (the first is 0 or more, the last fits
    an [int], the line width is not negative), every scanline has the
    offset of the first one, so that the choice made before the loop is
    the one a check on each scanline would make, and
    [assembleCharacter] is the loop that checks every scanline. *)
Theorem hoisted_branch (data : list Z) (a cw ch dpl : Z) (character : list Z) :
  let bits := glyph_bits a cw ch dpl in
  0 <= bits -> 0 <= dpl -> bits + (ch - 1) * (dpl * 32) <= INT_MAX ->
  (forall s, (s < Z.to_nat ch)%nat ->
     offset_at dpl bits s = Z.rem bits 32 /\
     onBoundary (offset_at dpl bits s) cw = onBoundary (Z.rem bits 32) cw) /\
  assembleCharacter data a cw ch dpl character =
  assembleCharacter_rechecked data a cw ch dpl character.
Proof.
  intros bits Hb Hdpl Hlast. split.
  - intros s Hs.
    destruct (offset_at_stable dpl bits ch s Hb Hdpl Hlast Hs) as [_ ->].
    auto.
  - apply assembleCharacter_is_rechecked; assumption.
Qed.

Lemma hoisted_branch_witness :
  offset_at 10 (glyph_bits 6 5 2 10) 1 = 30 /\
  assembleCharacter [2; 2684354560] 6 5 2 10 [0; 0] =
  assembleCharacter_rechecked [2; 2684354560] 6 5 2 10 [0; 0].
Proof.
  destruct (hoisted_branch [2; 2684354560] 6 5 2 10 [0; 0]) as [Hoff Heq].
  - vm_compute. discriminate.
  - lia.
  - vm_compute. discriminate.
  - split; [|exact Heq].
    apply (Hoff 1%nat). vm_compute. lia.
Defined.

(** C10 as stated fails when a bit offset leaves the range of [int].  On
    a sheet of 1984 x 2164806 pixels (charWidth 31, charHeight 1082403,
    dwordsPerLine 62) the glyph of code 1 starts at offset 31 and
    straddles; at scanline 1082402 [bits] has wrapped to -2147481697,
    the offset is -1, and a check on that scanline would choose the
    single-word computation. *)
Lemma hoisted_branch_overflow :
  (Z.to_nat 1082402 < Z.to_nat 1082403)%nat /\
  offset_at 62 (glyph_bits 1 31 1082403 62) 0 = 31 /\
  offset_at 62 (glyph_bits 1 31 1082403 62) (Z.to_nat 1082402) = -1 /\
  onBoundary 31 31 = 1 /\ onBoundary (-1) 31 = 0.
Proof.
  split; [lia|]. split; [reflexivity|]. split; [|split; reflexivity].
  unfold offset_at.
  rewrite bits_at_wrap by apply glyph_bits_is_int.
  rewrite Z2Nat.id by lia. reflexivity.
Qed.

(** ** Extraction returns the pixels of the cell *)

Lemma bit_in_word B p :
  0 <= B -> 0 <= p -> B mod 32 + p < 32 ->
  (B + p) / 32 = B / 32 /\ (B + p) mod 32 = B mod 32 + p.
Proof. intros. Z.div_mod_to_equations. lia. Qed.

Lemma bit_in_next_word B p :
  0 <= B -> 0 <= p < 32 -> 32 <= B mod 32 + p ->
  (B + p) / 32 = B / 32 + 1 /\ (B + p) mod 32 = B mod 32 + p - 32.
Proof. intros. Z.div_mod_to_equations. lia. Qed.

Lemma onBoundary_fits offset cw :
  0 <= offset < 32 -> 0 <= cw <= 32 ->
  (onBoundary offset cw =? 0) = (offset + cw <=? 32).
Proof.
  intros Hoff Hcw. unfold onBoundary.
  rewrite int_add_id by (unfold is_int, INT_MIN, INT_MAX; lia).
  rewrite Z.gtb_ltb.
  destruct (Z.ltb_spec 32 (offset + cw)), (Z.leb_spec (offset + cw) 32);
    try lia; reflexivity.
Qed.

(** A scanline that starts at bit [B] of the buffer: the row value has
    pixel [B + p] at bit [charWidth - 1 - p]. *)
Lemma checked_row_pixels data cw B :
  1 <= cw <= 31 -> 0 <= B <= INT_MAX ->
  B + cw <= 32 * Z.of_nat (length data) ->
  exists v,
    checked_row data cw (B / 32) (B mod 32) = Ok v /\
    0 <= v < 2 ^ cw /\
    forall p, 0 <= p < cw -> Z.testbit v (cw - 1 - p) = pixel data (B + p).
Proof.
  intros Hcw HB Hin. unfold INT_MAX in HB.
  pose proof (Z.mod_pos_bound B 32 ltac:(lia)) as Hoff.
  assert (Hq : 0 <= B / 32 < 2 ^ 26) by (Z.div_mod_to_equations; lia).
  unfold checked_row. rewrite onBoundary_fits by lia.
  destruct (Z.leb_spec (B mod 32 + cw) 32) as [Hfit|Hout].
  - assert (Hlt : (Z.to_nat (B / 32) < length data)%nat)
      by (Z.div_mod_to_equations; lia).
    destruct (lookup_lt_is_Some_2 _ _ Hlt) as [w Hw].
    exists (Z.land (Z.shiftr w (32 - cw - B mod 32)) (Z.ones cw)).
    split; [|split].
    + apply single_row_ok; try lia. apply load_Ok. split; [lia | exact Hw].
    + apply single_value_range. lia.
    + intros p Hp. rewrite single_value_bits by lia.
      destruct (bit_in_word B p) as [Hd Hm]; try lia.
      unfold pixel. rewrite Hd, Hm, Hw.
      destruct (Z.ltb_spec (cw - 1 - p) cw); [|lia]. simpl. f_equal. lia.
  - assert (Hlt : (Z.to_nat (B / 32 + 1) < length data)%nat)
      by (Z.div_mod_to_equations; lia).
    destruct (lookup_lt_is_Some_2 _ _ Hlt) as [w1 Hw1].
    assert (Hlt0 : (Z.to_nat (B / 32) < length data)%nat) by lia.
    destruct (lookup_lt_is_Some_2 _ _ Hlt0) as [w0 Hw0].
    exists (straddle_value w0 w1 cw (B mod 32)).
    split; [|split].
    + apply straddle_row_ok; try lia;
        try (unfold is_int, INT_MIN, INT_MAX; lia);
        apply load_Ok; (split; [lia | assumption]).
    + apply straddle_value_range; lia.
    + intros p Hp. rewrite straddle_value_bits by lia.
      unfold pixel.
      destruct (Z.ltb_spec (cw - 1 - p) (cw - (32 - B mod 32))).
      * destruct (bit_in_next_word B p) as [Hd Hm]; try lia.
        rewrite Hd, Hm, Hw1. f_equal. lia.
      * destruct (bit_in_word B p) as [Hd Hm]; try lia.
        rewrite Hd, Hm, Hw0.
        destruct (Z.ltb_spec (cw - 1 - p) cw); [|lia]. f_equal. lia.
Qed.

Lemma glyph_bits_cell a cw ch dpl :
  0 <= a <= 127 -> 0 <= cw -> 0 <= ch -> 0 <= dpl ->
  a mod 64 * cw + (if a <? 64 then 0 else ch * dpl * 32) =
  cell_bit cw ch dpl a 0 0.
Proof.
  intros Ha Hcw Hch Hdpl. unfold cell_bit.
  destruct (Z.ltb_spec a 64).
  - rewrite Z.div_small by lia. lia.
  - replace (a / 64) with 1 by (Z.div_mod_to_equations; lia). lia.
Qed.

Lemma cell_bit_range cw ch dpl a s p :
  0 <= a <= 127 -> 0 <= s < ch -> 0 <= p <= cw -> dpl * 32 = 64 * cw ->
  0 <= cell_bit cw ch dpl a s p /\
  cell_bit cw ch dpl a s p - p + cw <= 128 * cw * ch.
Proof.
  intros Ha Hs Hp Hd. unfold cell_bit. rewrite Hd.
  assert (Hq : 0 <= a / 64 <= 1) by (Z.div_mod_to_equations; lia).
  pose proof (Z.mod_pos_bound a 64 ltac:(lia)) as Hm.
  assert (Hr : 0 <= a / 64 * ch + s <= 2 * ch - 1) by nia.
  assert (H1 : 0 <= (a / 64 * ch + s) * (64 * cw)
               <= (2 * ch - 1) * (64 * cw)).
  { split; [apply Z.mul_nonneg_nonneg; lia|].
    apply Z.mul_le_mono_nonneg_r; lia. }
  assert (H2 : 0 <= a mod 64 * cw <= 63 * cw).
  { split; [apply Z.mul_nonneg_nonneg; lia|].
    apply Z.mul_le_mono_nonneg_r; lia. }
  lia.
Qed.

(** C3, as the code has it.  Take a sheet of glyphs 1 to 31 pixels
    wide and at least one pixel high, with [dwordsPerLine = charWidth *
    64 / 32], whose [128 * charWidth * charHeight] bits can be counted
    in an [int], and a buffer of that size that holds a pattern in its
    glyph cells.  Then for every code 0..127 [assembleCharacter]
    returns, and row [s] of the result has pixel [p] of the pattern at
    bit [charWidth - 1 - p] and nothing above bit [charWidth - 1],
    whether the glyph lies in one word or straddles two. *)
Theorem round_trip (data : list Z) (cw ch dpl : Z)
    (pat : Z -> Z -> Z -> bool) (character : list Z) :
  1 <= cw <= 31 -> 1 <= ch -> dpl = cw * 64 / 32 ->
  128 * cw * ch <= INT_MAX ->
  length data = Z.to_nat (dpl * (2 * ch)) ->
  (Z.to_nat ch <= length character)%nat ->
  holds_pattern data cw ch dpl pat ->
  forall a, 0 <= a <= 127 ->
  exists rows,
    assembleCharacter data a cw ch dpl character = Ok rows /\
    length rows = length character /\
    forall s, 0 <= s < ch ->
      exists v,
        rows !! Z.to_nat s = Some v /\ 0 <= v < 2 ^ cw /\
        forall p, 0 <= p < cw -> Z.testbit v (cw - 1 - p) = pat a s p.
Proof.
  intros Hcw Hch Hdpl Hsize Hdata Hchar Hpat a Ha.
  assert (Hd : dpl * 32 = 64 * cw)
    by (subst dpl; Z.div_mod_to_equations; lia).
  assert (Hlen : 32 * Z.of_nat (length data) = 128 * cw * ch)
    by (rewrite Hdata, Z2Nat.id; nia).
  assert (Hbits : glyph_bits a cw ch dpl = cell_bit cw ch dpl a 0 0).
  { rewrite glyph_bits_wrap, glyph_bits_cell by lia.
    apply wrap_int_id.
    destruct (cell_bit_range cw ch dpl a 0 0); try lia.
    unfold is_int, INT_MIN, INT_MAX in *. lia. }
  assert (Hcell : forall s p, cell_bit cw ch dpl a 0 0 + s * (dpl * 32) + p
                              = cell_bit cw ch dpl a s p)
    by (intros; unfold cell_bit; lia).
  assert (Hb0 : 0 <= glyph_bits a cw ch dpl)
    by (rewrite Hbits; apply (cell_bit_range cw ch dpl a 0 0); lia).
  assert (Hlast : glyph_bits a cw ch dpl + (ch - 1) * (dpl * 32) <= INT_MAX).
  { rewrite Hbits, <- (Z.add_0_r (_ + _)), Hcell.
    destruct (cell_bit_range cw ch dpl a (ch - 1) 0); lia. }
  assert (Hrow : forall s, (s < Z.to_nat ch)%nat ->
    exists v,
      checked_row data cw (dword_at dpl (glyph_bits a cw ch dpl) s)
                  (offset_at dpl (glyph_bits a cw ch dpl) s) = Ok v /\
      0 <= v < 2 ^ cw /\
      forall p, 0 <= p < cw ->
        Z.testbit v (cw - 1 - p) = pat a (Z.of_nat s) p).
  { intros s Hs. unfold dword_at, offset_at.
    destruct (offset_at_stable dpl (glyph_bits a cw ch dpl) ch s)
      as [-> _]; try lia.
    rewrite Hbits, <- (Z.add_0_r (_ + _)), Hcell.
    destruct (cell_bit_range cw ch dpl a (Z.of_nat s) 0) as [Hlo Hhi];
      try lia.
    rewrite rem_mod_nonneg, quot_div_nonneg by lia.
    destruct (checked_row_pixels data cw (cell_bit cw ch dpl a (Z.of_nat s) 0))
      as (v & Hv & Hrange & Hpix); try lia.
    exists v. split; [exact Hv|]. split; [exact Hrange|].
    intros p Hp. rewrite Hpix by lia.
    replace (cell_bit cw ch dpl a (Z.of_nat s) 0 + p)
      with (cell_bit cw ch dpl a (Z.of_nat s) p) by (unfold cell_bit; lia).
    apply Hpat; lia. }
  rewrite assembleCharacter_is_rechecked by lia.
  unfold assembleCharacter_rechecked.
  destruct (scan_total (checked_row data cw) dpl (Z.to_nat ch) 0
              (glyph_bits a cw ch dpl) character) as [rows Hrows];
    [lia | simpl; lia | |].
  { intros s Hs. destruct (Hrow s Hs) as (v & Hv & _). eauto. }
  exists rows. split; [exact Hrows|].
  apply scan_inv in Hrows as (Hl & Hget & _); [|lia].
  split; [exact Hl|].
  intros s Hs.
  destruct (Hrow (Z.to_nat s) ltac:(lia)) as (v & Hv & Hrange & Hpix).
  destruct (Hget (Z.to_nat s) ltac:(lia)) as (v' & Hv' & Hlook).
  exists v. rewrite Hv in Hv'. inversion Hv'; subst v'.
  split; [exact Hlook|]. split; [exact Hrange|].
  intros p Hp. rewrite Hpix by lia. f_equal. lia.
Qed.

Lemma round_trip_witness :
  exists rows,
    assembleCharacter (replicate 20 2863311530) 6 5 1 10 [0] = Ok rows /\
    length rows = 1%nat.
Proof.
  assert (H : forall a, 0 <= a <= 127 ->
    exists rows,
      assembleCharacter (replicate 20 2863311530) a 5 1 10 [0] = Ok rows /\
      length rows = length [0] /\
      forall s, 0 <= s < 1 ->
        exists v,
          rows !! Z.to_nat s = Some v /\ 0 <= v < 2 ^ 5 /\
          forall p, 0 <= p < 5 ->
            Z.testbit v (5 - 1 - p) =
            pixel (replicate 20 2863311530) (cell_bit 5 1 10 a s p)).
  { apply (round_trip (replicate 20 2863311530) 5 1 10
             (fun a s p =>
                pixel (replicate 20 2863311530) (cell_bit 5 1 10 a s p)) [0]).
    - lia.
    - lia.
    - reflexivity.
    - vm_compute. discriminate.
    - reflexivity.
    - simpl. lia.
    - intros a s p _ _ _. reflexivity. }
  destruct (H 6 ltac:(lia)) as (rows & Hrows & Hlen & _).
  exists rows. split; [exact Hrows | exact Hlen].
Defined.

(** C3 as stated fails on a sheet whose bits cannot be counted in an
    [int]: with charWidth 1, charHeight 33554432 and dwordsPerLine 2
    (64 x 67108864 pixels) the glyph of code 64 starts at bit 2^31, the
    code computes -2^31 and reads in front of the buffer, whatever the
    buffer holds. *)
Lemma round_trip_overflow :
  1 <= 1 <= 32 /\ 33554432 >= 1 /\ 2 = 1 * 64 / 32 /\ 0 <= 64 <= 127 /\
  forall data character,
    assembleCharacter data 64 1 33554432 2 character = Fault OutOfBounds.
Proof.
  split; [lia|]. split; [lia|]. split; [reflexivity|]. split; [lia|].
  intros data character. unfold assembleCharacter.
  change (glyph_bits 64 1 33554432 2) with (-2147483648).
  change (onBoundary (Z.rem (-2147483648) 32) 1 =? 0) with true. cbv iota.
  apply (scan_fault (single_row data 1)); [lia | reflexivity].
Qed.

(** ** Loading the pixels *)

Lemma byte_val_range b : 0 <= byte_val b < 256.
Proof.
  unfold byte_val. pose proof (Byte.to_N_bounded b). lia.
Qed.

Lemma le32_is_u32 b0 b1 b2 b3 : is_u32 (le32 b0 b1 b2 b3).
Proof.
  unfold is_u32, le32.
  pose proof (byte_val_range b0). pose proof (byte_val_range b1).
  pose proof (byte_val_range b2). pose proof (byte_val_range b3). lia.
Qed.

Lemma u32_bytes y :
  is_u32 y ->
  y = byte_of y 0 + 2 ^ 8 * byte_of y 1 + 2 ^ 16 * byte_of y 2
      + 2 ^ 24 * byte_of y 3.
Proof.
  unfold is_u32, byte_of. intros Hy.
  change (2 ^ (8 * 0)) with 1. change (2 ^ (8 * 1)) with 256.
  change (2 ^ (8 * 2)) with 65536. change (2 ^ (8 * 3)) with 16777216.
  Z.div_mod_to_equations. lia.
Qed.

Lemma le32_bytes b0 b1 b2 b3 :
  byte_of (le32 b0 b1 b2 b3) 0 = byte_val b0 /\
  byte_of (le32 b0 b1 b2 b3) 1 = byte_val b1 /\
  byte_of (le32 b0 b1 b2 b3) 2 = byte_val b2 /\
  byte_of (le32 b0 b1 b2 b3) 3 = byte_val b3.
Proof.
  unfold byte_of, le32.
  pose proof (byte_val_range b0). pose proof (byte_val_range b1).
  pose proof (byte_val_range b2). pose proof (byte_val_range b3).
  change (2 ^ (8 * 0)) with 1. change (2 ^ (8 * 1)) with 256.
  change (2 ^ (8 * 2)) with 65536. change (2 ^ (8 * 3)) with 16777216.
  repeat split; Z.div_mod_to_equations; lia.
Qed.

(** Swapping the word [fread] stored gives the bytes in file order,
    first byte on top. *)
Lemma swapEndian32_le32 b0 b1 b2 b3 :
  swapEndian32 (le32 b0 b1 b2 b3) = be32 b0 b1 b2 b3.
Proof.
  pose proof (le32_is_u32 b0 b1 b2 b3) as Hu.
  rewrite (u32_bytes _ (swapEndian32_is_u32 _ Hu)).
  rewrite !swapEndian32_byte by (auto; lia).
  change (3 - 0) with 3. change (3 - 1) with 2.
  change (3 - 2) with 1. change (3 - 3) with 0.
  destruct (le32_bytes b0 b1 b2 b3) as (-> & -> & -> & ->).
  unfold be32. lia.
Qed.

Lemma be32_leftmost b0 b1 b2 b3 q :
  0 <= q < 8 ->
  Z.testbit (be32 b0 b1 b2 b3) (31 - q) = Z.testbit (byte_val b0) (7 - q).
Proof.
  intros Hq.
  replace (31 - q) with (7 - q + 24) by lia.
  rewrite <- Z.div_pow2_bits by lia. f_equal.
  unfold be32.
  pose proof (byte_val_range b1). pose proof (byte_val_range b2).
  pose proof (byte_val_range b3).
  change (2 ^ 24) with 16777216. change (2 ^ 16) with 65536.
  change (2 ^ 8) with 256.
  Z.div_mod_to_equations. lia.
Qed.

Lemma byte_of_range x i : 0 <= byte_of x i < 256.
Proof. unfold byte_of. apply Z.mod_pos_bound. lia. Qed.

Lemma word_of_bytes_is_u32 a b c d :
  0 <= a < 256 -> 0 <= b < 256 -> 0 <= c < 256 -> 0 <= d < 256 ->
  is_u32 (word_of_bytes a b c d).
Proof. unfold is_u32, word_of_bytes. lia. Qed.

Lemma word_of_bytes_byte a b c d :
  0 <= a < 256 -> 0 <= b < 256 -> 0 <= c < 256 -> 0 <= d < 256 ->
  byte_of (word_of_bytes a b c d) 0 = a /\
  byte_of (word_of_bytes a b c d) 1 = b /\
  byte_of (word_of_bytes a b c d) 2 = c /\
  byte_of (word_of_bytes a b c d) 3 = d.
Proof.
  intros Ha Hb Hc Hd. unfold byte_of, word_of_bytes.
  change (2 ^ (8 * 0)) with 1. change (2 ^ (8 * 1)) with 256.
  change (2 ^ (8 * 2)) with 65536. change (2 ^ (8 * 3)) with 16777216.
  repeat split; Z.div_mod_to_equations; lia.
Qed.

(** A read that finds four bytes stores them, whatever the object
    held. *)
Lemma fread32_bytes file P old b0 b1 b2 b3 :
  0 <= P ->
  file !! Z.to_nat P = Some b0 -> file !! Z.to_nat (P + 1) = Some b1 ->
  file !! Z.to_nat (P + 2) = Some b2 -> file !! Z.to_nat (P + 3) = Some b3 ->
  fread32 file P old = (P + 4, le32 b0 b1 b2 b3).
Proof.
  intros HP H0 H1 H2 H3. unfold fread32.
  replace (Z.to_nat (P + 1)) with (S (Z.to_nat P)) in H1 by lia.
  replace (Z.to_nat (P + 2)) with (S (S (Z.to_nat P))) in H2 by lia.
  replace (Z.to_nat (P + 3)) with (S (S (S (Z.to_nat P)))) in H3 by lia.
  rewrite (drop_S _ _ _ H0), (drop_S _ _ _ H1), (drop_S _ _ _ H2),
    (drop_S _ _ _ H3).
  reflexivity.
Qed.

(** At the end of the file, or beyond, nothing is read. *)
Lemma fread32_eof file q old :
  Z.of_nat (length file) <= q -> fread32 file q old = (q, old).
Proof.
  intros Hq. unfold fread32. rewrite drop_ge by lia. reflexivity.
Qed.

(** The stream only moves forward. *)
Lemma fread32_pos file q old :
  q <= fst (fread32 file q old) <= q + 4.
Proof.
  unfold fread32.
  destruct (drop (Z.to_nat q) file) as [|b0 [|b1 [|b2 [|b3 rest]]]];
    cbn [fst]; lia.
Qed.

Lemma fread32_is_u32 file q old :
  is_u32 old -> is_u32 (snd (fread32 file q old)).
Proof.
  intros Hold. unfold fread32.
  destruct (drop (Z.to_nat q) file) as [|b0 [|b1 [|b2 [|b3 rest]]]];
    cbn [snd]; try exact Hold; try apply le32_is_u32;
    apply word_of_bytes_is_u32;
    auto using byte_val_range, byte_of_range.
Qed.

(** Byte by byte: byte [k] of the object is byte [P + k] of the file
    when the file has it, and is not touched otherwise. *)
Lemma fread32_byte file P old k :
  0 <= P -> 0 <= k < 4 ->
  byte_of (snd (fread32 file P old)) k =
  match file !! Z.to_nat (P + k) with
  | Some b => byte_val b
  | None => byte_of old k
  end.
Proof.
  intros HP Hk. unfold fread32.
  replace (Z.to_nat (P + k)) with (Z.to_nat P + Z.to_nat k)%nat by lia.
  rewrite <- lookup_drop.
  assert (Hc : k = 0 \/ k = 1 \/ k = 2 \/ k = 3) by lia.
  destruct (drop (Z.to_nat P) file) as [|b0 [|b1 [|b2 [|b3 rest]]]];
    cbn [snd].
  - destruct Hc as [-> | [-> | [-> | ->]]]; reflexivity.
  - destruct (word_of_bytes_byte (byte_val b0) (byte_of old 1)
                (byte_of old 2) (byte_of old 3))
      as (E0 & E1 & E2 & E3);
      auto using byte_val_range, byte_of_range.
    destruct Hc as [-> | [-> | [-> | ->]]]; assumption.
  - destruct (word_of_bytes_byte (byte_val b0) (byte_val b1)
                (byte_of old 2) (byte_of old 3))
      as (E0 & E1 & E2 & E3);
      auto using byte_val_range, byte_of_range.
    destruct Hc as [-> | [-> | [-> | ->]]]; assumption.
  - destruct (word_of_bytes_byte (byte_val b0) (byte_val b1)
                (byte_val b2) (byte_of old 3))
      as (E0 & E1 & E2 & E3);
      auto using byte_val_range, byte_of_range.
    destruct Hc as [-> | [-> | [-> | ->]]]; assumption.
  - destruct (le32_bytes b0 b1 b2 b3) as (E0 & E1 & E2 & E3).
    destruct Hc as [-> | [-> | [-> | ->]]]; assumption.
Qed.

(** A stream at [q] reads as one at [p] when it is at [p], or when both
    positions are at the end of the file or beyond; one read keeps it
    so for [p + 4]. *)
Lemma fread32_step file q p old :
  0 <= p ->
  q = p \/ (Z.of_nat (length file) <= q /\ Z.of_nat (length file) <= p) ->
  snd (fread32 file q old) = snd (fread32 file p old) /\
  (fst (fread32 file q old) = p + 4 \/
   (Z.of_nat (length file) <= fst (fread32 file q old) /\
    Z.of_nat (length file) <= p + 4)).
Proof.
  intros Hp [-> | [Hq Hp']].
  - split; [reflexivity|]. unfold fread32.
    pose proof (length_drop file (Z.to_nat p)) as Hl.
    destruct (drop (Z.to_nat p) file) as [|b0 [|b1 [|b2 [|b3 rest]]]];
      cbn [fst]; cbn [length] in Hl; lia.
  - rewrite !fread32_eof by lia. cbn [fst snd]. split; [reflexivity|].
    right. lia.
Qed.

(** One row of the sheet: the words read land, swapped, in the cells
    [i * dpl + j ..] and no other cell changes.  The stream reads as one
    at [p]. *)
Lemma read_row_spec file dpl i n : forall j q p charData,
  0 <= p ->
  q = p \/ (Z.of_nat (length file) <= q /\ Z.of_nat (length file) <= p) ->
  0 <= i * dpl -> 0 <= j ->
  i * dpl + j + Z.of_nat n <= Z.of_nat (length charData) ->
  i * dpl + j + Z.of_nat n <= INT_MAX + 1 ->
  exists q' data',
    read_row file dpl n i j q charData = Ok (q', data') /\
    (q' = p + 4 * Z.of_nat n \/
     (Z.of_nat (length file) <= q' /\
      Z.of_nat (length file) <= p + 4 * Z.of_nat n)) /\
    length data' = length charData /\
    (forall t old, (t < n)%nat ->
       charData !! Z.to_nat (i * dpl + j + Z.of_nat t) = Some old ->
       data' !! Z.to_nat (i * dpl + j + Z.of_nat t)
       = Some (swapEndian32
                 (snd (fread32 file (p + 4 * Z.of_nat t) old)))) /\
    (forall m, (m < Z.to_nat (i * dpl + j))%nat \/
               (Z.to_nat (i * dpl + j) + n <= m)%nat ->
       data' !! m = charData !! m).
Proof.
  induction n as [|n IH]; intros j q p charData Hp Hq Hbase Hj Hlen Hint.
  - exists q, charData. simpl. rewrite Z.add_0_r.
    repeat split; auto. intros t w Ht. lia.
  - unfold INT_MAX in Hint. simpl read_row.
    assert (Hidx : int_add (int_mul i dpl) j = i * dpl + j).
    { unfold int_add, int_mul.
      rewrite wrap_int_add_l.
      apply wrap_int_id. unfold is_int, INT_MIN, INT_MAX. lia. }
    rewrite Hidx.
    assert (Hin : (Z.to_nat (i * dpl + j) < length charData)%nat) by lia.
    destruct (lookup_lt_is_Some_2 _ _ Hin) as [old Hold].
    assert (Hload : load charData (i * dpl + j) = Ok old)
      by (apply load_Ok; split; [lia | exact Hold]).
    rewrite Hload. cbn [bind]. cbv zeta.
    rewrite store_in_range by lia. cbn [bind].
    destruct (fread32_step file q p old Hp Hq) as [Hval Hnext].
    rewrite Hval.
    set (cell := swapEndian32 _).
    destruct (IH (j + 1) (fst (fread32 file q old)) (p + 4)
                 (<[Z.to_nat (i * dpl + j) := cell]> charData))
      as (q' & data' & Hrun & Hq' & Hl & Hget & Hout);
      [ lia | exact Hnext | exact Hbase | lia
      | rewrite length_insert; lia | unfold INT_MAX; lia |].
    exists q', data'. split; [exact Hrun|]. split; [|split; [|split]].
    + replace (p + 4 * Z.of_nat (S n)) with (p + 4 + 4 * Z.of_nat n) by lia.
      exact Hq'.
    + rewrite Hl. apply length_insert.
    + intros [|t] w Ht Hw.
      * rewrite Z.add_0_r in *. rewrite Hout by lia.
        rewrite list_lookup_insert_eq by lia.
        rewrite Hold in Hw. injection Hw as <-.
        subst cell. replace (p + 4 * Z.of_nat 0) with p by lia.
        reflexivity.
      * replace (i * dpl + j + Z.of_nat (S t))
          with (i * dpl + (j + 1) + Z.of_nat t) in * by lia.
        replace (p + 4 * Z.of_nat (S t))
          with (p + 4 + 4 * Z.of_nat t) by lia.
        apply Hget; [lia|].
        rewrite list_lookup_insert_ne by lia. exact Hw.
    + intros m Hm. rewrite Hout by lia.
      apply list_lookup_insert_ne. lia.
Qed.

(** All rows: the row read [r]-th lands in row [n - 1 - r]. *)
Lemma read_rows_spec file dpl n : forall q p charData,
  0 <= p ->
  q = p \/ (Z.of_nat (length file) <= q /\ Z.of_nat (length file) <= p) ->
  0 <= dpl ->
  Z.of_nat n * dpl <= Z.of_nat (length charData) ->
  Z.of_nat n * dpl <= INT_MAX ->
  exists data',
    read_rows file dpl n q charData = Ok data' /\
    length data' = length charData /\
    (forall r j old, (r < n)%nat -> 0 <= j < dpl ->
       charData !! Z.to_nat ((Z.of_nat n - 1 - Z.of_nat r) * dpl + j)
       = Some old ->
       data' !! Z.to_nat ((Z.of_nat n - 1 - Z.of_nat r) * dpl + j)
       = Some (swapEndian32
                 (snd (fread32 file (p + 4 * (Z.of_nat r * dpl + j)) old)))) /\
    (forall m, (Z.to_nat (Z.of_nat n * dpl) <= m)%nat ->
       data' !! m = charData !! m).
Proof.
  induction n as [|n IH]; intros q p charData Hp Hq Hdpl Hlen Hint.
  - exists charData. simpl. repeat split; auto. intros r j w Hr. lia.
  - simpl read_rows.
    destruct (read_row_spec file dpl (Z.of_nat n) (Z.to_nat dpl) 0 q p charData)
      as (q1 & data1 & Hrun1 & Hq1 & Hl1 & Hget1 & Hout1);
      [exact Hp | exact Hq | nia | lia | nia | nia |].
    rewrite Hrun1. cbn [bind fst snd].
    destruct (IH q1 (p + 4 * Z.of_nat (Z.to_nat dpl)) data1)
      as (data' & Hrun & Hl & Hget & Hout);
      [lia | exact Hq1 | exact Hdpl | nia | nia |].
    exists data'. split; [exact Hrun|]. split; [congruence|]. split.
    + intros [|r] j w Hr Hj Hw.
      * rewrite Hout by nia.
        replace ((Z.of_nat (S n) - 1 - Z.of_nat 0) * dpl + j)
          with (Z.of_nat n * dpl + 0 + Z.of_nat (Z.to_nat j)) in * by lia.
        rewrite (Hget1 (Z.to_nat j) w) by (lia || exact Hw).
        do 4 f_equal. lia.
      * replace ((Z.of_nat (S n) - 1 - Z.of_nat (S r)) * dpl + j)
          with ((Z.of_nat n - 1 - Z.of_nat r) * dpl + j) in * by lia.
        rewrite (Hget r j w); [| lia | lia |].
        -- do 4 f_equal. nia.
        -- rewrite Hout1; [exact Hw|]. left. nia.
    + intros m Hm. rewrite Hout by nia. apply Hout1. nia.
Qed.

(** Loading stops at the first cell that lies outside the buffer. *)
Lemma read_rows_fault file dpl n pos charData f :
  (0 < n)%nat -> 0 < dpl ->
  load charData (int_add (int_mul (Z.of_nat n - 1) dpl) 0) = Fault f ->
  read_rows file dpl n pos charData = Fault f.
Proof.
  intros Hn Hdpl Hload.
  destruct n as [|n]; [lia|].
  replace (Z.of_nat (S n) - 1) with (Z.of_nat n) in Hload by lia.
  cbn [read_rows].
  destruct (Z.to_nat dpl) as [|m] eqn:Hm; [lia|].
  cbn [read_row]. rewrite Hload. reflexivity.
Qed.

(** C6, as the code has it.  For a sheet whose [dwordsPerLine *
    imageHeight] words can be indexed by an [int], loading completes;
    the word read for row [i] of the file (the bottom row is row 0) and
    column [j] is stored in row [imageHeight - 1 - i] of the buffer, so
    that row 0 of the buffer is the top scanline; and it is stored with
    its four bytes reversed, the first byte of the file on top, so that
    bit 31 of the cell is the leftmost pixel of the span, the top bit
    of that byte.  [start] is the position of the stream when loading
    begins. *)
Theorem pixel_rows (file : list byte) (start : Z) (g : geometry)
    (fresh : list Z) :
  let ih := imageHeight g in
  let dpl := dwordsPerLine g in
  let pos := fseek start (pixelDataOffset g) in
  0 <= start ->
  0 <= ih <= INT_MAX -> 0 <= dpl -> dpl * ih <= INT_MAX ->
  length fresh = Z.to_nat (dpl * ih) ->
  exists data,
    load_pixels file start g fresh = Ok data /\
    length data = length fresh /\
    forall i j b0 b1 b2 b3,
      0 <= i < ih -> 0 <= j < dpl ->
      let P := pos + 4 * (i * dpl + j) in
      file !! Z.to_nat P = Some b0 ->
      file !! Z.to_nat (P + 1) = Some b1 ->
      file !! Z.to_nat (P + 2) = Some b2 ->
      file !! Z.to_nat (P + 3) = Some b3 ->
      data !! Z.to_nat ((ih - 1 - i) * dpl + j)
        = Some (swapEndian32 (le32 b0 b1 b2 b3)) /\
      swapEndian32 (le32 b0 b1 b2 b3) = be32 b0 b1 b2 b3 /\
      Z.testbit (be32 b0 b1 b2 b3) 31 = Z.testbit (byte_val b0) 7.
Proof.
  intros ih dpl pos Hstart Hih Hdpl Hsize Hlen.
  assert (Hpos : 0 <= pos).
  { subst pos. unfold fseek.
    destruct (Z.ltb_spec (pixelDataOffset g) 0); lia. }
  assert (Hn : Z.to_nat (int_sub ih 1 + 1) = Z.to_nat ih).
  { rewrite int_sub_id; [f_equal; lia|].
    unfold is_int, INT_MIN, INT_MAX in *. lia. }
  destruct (read_rows_spec file dpl (Z.to_nat ih) pos pos fresh)
    as (data & Hrun & Hl & Hget & _);
    [ exact Hpos | left; reflexivity | exact Hdpl
    | rewrite Hlen, !Z2Nat.id by nia; lia
    | rewrite Z2Nat.id by lia; lia | ].
  exists data. unfold load_pixels. fold ih dpl pos. rewrite Hn.
  split; [exact Hrun|]. split; [exact Hl|].
  intros i j b0 b1 b2 b3 Hi Hj H0 H1 H2 H3.
  set (P := pos + 4 * (i * dpl + j)) in *.
  split; [|split].
  - assert (Hin : (Z.to_nat ((ih - 1 - i) * dpl + j) < length fresh)%nat)
      by (rewrite Hlen; nia).
    destruct (lookup_lt_is_Some_2 _ _ Hin) as [old Hold].
    replace ((ih - 1 - i) * dpl + j)
      with ((Z.of_nat (Z.to_nat ih) - 1 - Z.of_nat (Z.to_nat i)) * dpl + j)
      in * by lia.
    rewrite (Hget (Z.to_nat i) j old) by (lia || exact Hold).
    rewrite Z2Nat.id by lia. fold P.
    rewrite (fread32_bytes file P old b0 b1 b2 b3) by (auto; subst P; nia).
    reflexivity.
  - apply swapEndian32_le32.
  - apply (be32_leftmost b0 b1 b2 b3 0). lia.
Qed.

Lemma pixel_rows_witness :
  load_pixels
    (replicate 26 x00 ++ [x80; x01; x02; x03; x04; x05; x06; x07;
                          x08; x09; x0a; x0b; x0c; x0d; x0e; x0f])
    26
    {| pixelDataOffset := 26; imageWidth := 64; imageHeight := 2;
       charWidth := 1; charHeight := 1; bytesPerLine := 8;
       dwordsPerLine := 2 |} [0; 0; 0; 0]
  = Ok [134810123; 202182159; 2147549699; 67438087].
Proof.
  destruct (pixel_rows
              (replicate 26 x00 ++ [x80; x01; x02; x03; x04; x05; x06; x07;
                                    x08; x09; x0a; x0b; x0c; x0d; x0e; x0f])
              26
              {| pixelDataOffset := 26; imageWidth := 64; imageHeight := 2;
                 charWidth := 1; charHeight := 1; bytesPerLine := 8;
                 dwordsPerLine := 2 |} [0; 0; 0; 0])
    as (data & Hrun & _).
  - lia.
  - vm_compute. split; discriminate.
  - simpl. lia.
  - vm_compute. discriminate.
  - reflexivity.
  - rewrite Hrun. vm_compute in Hrun. inversion Hrun. reflexivity.
Defined.

(** C6 as stated fails on a sheet whose words cannot be indexed by an
    [int]: for 64 x 1073741825 pixels (dwordsPerLine 2) the first row
    read is to go to row 1073741824, the index [i * dwordsPerLine]
    computed is -2147483648, and nothing is stored, whatever the file
    and the buffer. *)
Lemma pixel_rows_overflow :
  0 <= 1073741825 <= INT_MAX /\ 0 <= 2 /\
  forall file start fresh,
    load_pixels file start
      {| pixelDataOffset := 26; imageWidth := 64; imageHeight := 1073741825;
         charWidth := 1; charHeight := 536870912; bytesPerLine := 8;
         dwordsPerLine := 2 |} fresh
    = Fault OutOfBounds.
Proof.
  split; [vm_compute; split; discriminate|]. split; [lia|].
  intros file start fresh. unfold load_pixels. cbn [imageHeight dwordsPerLine].
  apply read_rows_fault.
  - rewrite int_sub_id by (vm_compute; split; discriminate). lia.
  - lia.
  - rewrite int_sub_id by (vm_compute; split; discriminate).
    rewrite Z2Nat.id by lia. reflexivity.
Qed.

(** ** The text of font.bin *)

Lemma digit_bit n m :
  0 <= m -> digit (Z.land (Z.shiftr n m) 1) = bit_char (Z.testbit n m).
Proof.
  intros Hm. unfold digit, bit_char.
  rewrite Z.testbit_odd.
  change 1 with (Z.ones 1) at 1. rewrite Z.land_ones by lia.
  change (2 ^ 1) with 2. rewrite Zmod_odd.
  destruct (Z.odd (Z.shiftr n m)); reflexivity.
Qed.

Lemma toBinary_loop_spec n k : forall ds,
  toBinary_loop n k = Ok ds ->
  length ds = k /\
  forall j, (j < k)%nat ->
    ds !! j = Some (bit_char (Z.testbit n (Z.of_nat (k - 1 - j)))).
Proof.
  induction k as [|k IH]; intros ds H.
  - inversion H. split; [reflexivity|]. intros j Hj. lia.
  - cbn [toBinary_loop] in H.
    apply bind_Ok in H as (v & Hv & H).
    apply bind_Ok in H as (rest & Hrest & H).
    inversion H; subst ds. clear H.
    destruct (IH rest Hrest) as [Hlen Hget].
    unfold u32_shr in Hv. destruct (count_ok (Z.of_nat k)); [|discriminate].
    inversion Hv; subst v.
    split; [simpl; lia|].
    intros [|j] Hj.
    + simpl. rewrite digit_bit by lia. do 3 f_equal. lia.
    + simpl. rewrite Hget by lia. do 3 f_equal. lia.
Qed.

(** One line of the file: [width] binary digits, the most significant
    first, and the terminator. *)
Lemma toBinary_spec v width line :
  0 <= width <= INT_MAX ->
  toBinary v width = Ok line ->
  Z.of_nat (length line) = width + 1 /\
  (forall j, 0 <= j < width ->
     line !! Z.to_nat j = Some (bit_char (Z.testbit v (width - 1 - j)))) /\
  line !! Z.to_nat width = Some newline.
Proof.
  intros Hw H. unfold toBinary in H.
  rewrite int_sub_id in H by (unfold is_int, INT_MIN, INT_MAX in *; lia).
  replace (width - 1 + 1) with width in H by lia.
  apply bind_Ok in H as (ds & Hds & H). inversion H; subst line. clear H.
  apply toBinary_loop_spec in Hds as [Hlen Hget].
  split; [|split].
  - rewrite length_app. simpl. lia.
  - intros j Hj. rewrite lookup_app_l by lia.
    rewrite Hget by lia. do 3 f_equal. lia.
  - rewrite lookup_app_r by lia.
    replace (Z.to_nat width - length ds)%nat with 0%nat by lia. reflexivity.
Qed.

Lemma print_rows_spec character cw n : forall j out,
  0 <= j ->
  print_rows character cw n j = Ok out ->
  exists lines,
    out = concat lines /\ length lines = n /\
    forall t, (t < n)%nat ->
      exists v line,
        character !! (Z.to_nat j + t)%nat = Some v /\
        toBinary v cw = Ok line /\ lines !! t = Some line.
Proof.
  induction n as [|n IH]; intros j out Hj H.
  - inversion H. exists []. repeat split; auto. intros t Ht. lia.
  - cbn [print_rows] in H.
    apply bind_Ok in H as (v & Hv & H).
    apply bind_Ok in H as (line & Hline & H).
    apply bind_Ok in H as (rest & Hrest & H).
    inversion H; subst out. clear H.
    apply load_Ok in Hv as [_ Hv].
    destruct (IH (j + 1) rest ltac:(lia) Hrest) as (lines & -> & Hlen & Hget).
    exists (line :: lines). split; [reflexivity|]. split; [simpl; lia|].
    intros [|t] Ht.
    + exists v, line. rewrite Nat.add_0_r. auto.
    + destruct (Hget t ltac:(lia)) as (v' & line' & Hv' & Hl' & Hlook).
      exists v', line'. split; [|auto].
      rewrite <- Hv'. f_equal. lia.
Qed.

Lemma assembleCharacter_length data a cw ch dpl character rows :
  assembleCharacter data a cw ch dpl character = Ok rows ->
  length rows = length character.
Proof.
  unfold assembleCharacter.
  destruct (onBoundary _ cw =? 0); intros H;
    apply scan_inv in H as (Hlen & _); auto; lia.
Qed.

Lemma print_glyphs_spec data cw ch dpl n : forall i character out,
  0 <= i ->
  print_glyphs data cw ch dpl n i character = Ok out ->
  exists lines,
    out = concat lines /\ length lines = (n * Z.to_nat ch)%nat /\
    forall k t, (k < n)%nat -> (t < Z.to_nat ch)%nat ->
      exists c rows v line,
        length c = length character /\
        assembleCharacter data (i + Z.of_nat k) cw ch dpl c = Ok rows /\
        rows !! t = Some v /\ toBinary v cw = Ok line /\
        lines !! (k * Z.to_nat ch + t)%nat = Some line.
Proof.
  induction n as [|n IH]; intros i character out Hi H.
  - inversion H. exists []. repeat split; auto. intros k t Hk. lia.
  - cbn [print_glyphs] in H.
    apply bind_Ok in H as (rows & Hrows & H).
    apply bind_Ok in H as (txt & Htxt & H).
    apply bind_Ok in H as (rest & Hrest & H).
    inversion H; subst out. clear H.
    pose proof (assembleCharacter_length _ _ _ _ _ _ _ Hrows) as Hlr.
    apply print_rows_spec in Htxt as (lines1 & -> & Hlen1 & Hget1); [|lia].
    destruct (IH (i + 1) rows rest ltac:(lia) Hrest)
      as (lines2 & -> & Hlen2 & Hget2).
    exists (lines1 ++ lines2).
    split; [symmetry; apply concat_app|].
    split; [rewrite length_app; lia|].
    intros [|k] t Hk Ht.
    + destruct (Hget1 t Ht) as (v & line & Hv & Hline & Hlook).
      exists character, rows, v, line.
      rewrite Z.add_0_r. simpl in Hv.
      repeat split; auto.
      rewrite lookup_app_l by lia. exact Hlook.
    + destruct (Hget2 k t ltac:(lia) Ht)
        as (c & rows' & v & line & Hc & Hr' & Hv & Hline & Hlook).
      exists c, rows', v, line.
      split; [congruence|]. split.
      { rewrite <- Hr'. f_equal. lia. }
      repeat split; auto.
      rewrite lookup_app_r by lia. rewrite <- Hlook. f_equal. lia.
Qed.

(** A glyph of negative width cannot be extracted. *)
Lemma assembleCharacter_negative_width data a cw ch dpl character :
  - 2 ^ 30 <= cw < 0 -> 0 < ch ->
  assembleCharacter data a cw ch dpl character = Fault ShiftCount.
Proof.
  intros Hcw Hch. unfold assembleCharacter.
  set (bits := glyph_bits a cw ch dpl).
  destruct (int_quot_rem32 bits (glyph_bits_is_int _ _ _ _)) as [_ Hr].
  assert (Hon : onBoundary (Z.rem bits 32) cw = 0).
  { unfold onBoundary.
    rewrite int_add_id by (unfold is_int, INT_MIN, INT_MAX; lia).
    destruct (Z.gtb_spec (Z.rem bits 32 + cw) 32); [lia | reflexivity]. }
  rewrite Hon. simpl Z.eqb. cbv iota.
  apply (scan_fault (single_row data cw)); [lia|].
  unfold single_row, int_shl. rewrite count_ok_false by lia. reflexivity.
Qed.

Lemma fread_int_is_int file pos old : is_int (snd (fread_int file pos old)).
Proof. apply wrap_int_is_int. Qed.

Lemma read_geometry_bounds file garbage :
  let g := read_geometry file garbage in
  - 2 ^ 25 <= charWidth g <= 2 ^ 25 /\ is_int (imageHeight g).
Proof.
  unfold read_geometry, read_header. cbn [snd charWidth imageHeight].
  split; [|apply fread_int_is_int].
  set (iw := snd (fread_int file _ (stack_imageWidth garbage))).
  assert (Hint : is_int iw) by apply fread_int_is_int.
  unfold is_int, INT_MIN, INT_MAX in Hint.
  Z.quot_rem_to_equations. lia.
Qed.

Lemma malloc_Some room count old block :
  malloc room count old = Some block ->
  0 <= count /\ length block = Z.to_nat count.
Proof.
  unfold malloc. destruct (Z.leb_spec 0 count); simpl; [|discriminate].
  destruct room; [|discriminate].
  intros [= <-]. split; [assumption|].
  rewrite length_map. apply length_seq.
Qed.

(** The block a heap with room grants. *)
Lemma malloc_room count old :
  0 <= count ->
  exists block,
    malloc true count old = Some block /\
    length block = Z.to_nat count /\
    forall i, 0 <= i < count ->
      block !! Z.to_nat i = Some (wrap_u32 (old i)).
Proof.
  intros Hc. unfold malloc.
  destruct (Z.leb_spec 0 count); [|lia]. cbn [andb].
  eexists. split; [reflexivity|].
  split; [rewrite length_map; apply length_seq|].
  intros i Hi. rewrite list_lookup_fmap.
  rewrite lookup_seq_lt by lia. cbn [fmap option_fmap option_map Nat.add].
  rewrite Z2Nat.id by lia. reflexivity.
Qed.

(** C5.  A run that ends with status 0 has written to font.bin the
    concatenation of [128 * charHeight] lines.  Line [k] belongs to
    code [k / charHeight] and scanline [k mod charHeight]: it is the
    row value [assembleCharacter] yields there, written as [charWidth]
    characters '0' or '1', character [j] being bit [charWidth - 1 - j],
    followed by the line terminator. *)
Theorem font_bin_lines (e : env) (r : outcome) :
  main e = Ok r -> status r = 0 ->
  exists file fresh data lines,
    font_file e = Some file /\
    let g := read_geometry file (garbage e) in
    let cw := charWidth g in
    let ch := charHeight g in
    let dpl := dwordsPerLine g in
    malloc (heap_charData e) (dpl * imageHeight g) (old_charData (garbage e))
      = Some fresh /\
    load_pixels file (header_end file (garbage e)) g fresh = Ok data /\
    font_bin r = Some (concat lines) /\
    Z.of_nat (length lines) = 128 * ch /\
    forall k, 0 <= k < 128 * ch ->
      exists character rows v line,
        length character = Z.to_nat ch /\
        assembleCharacter data (k / ch) cw ch dpl character = Ok rows /\
        rows !! Z.to_nat (k mod ch) = Some v /\
        lines !! Z.to_nat k = Some line /\
        Z.of_nat (length line) = cw + 1 /\
        (forall j, 0 <= j < cw ->
           line !! Z.to_nat j = Some (bit_char (Z.testbit v (cw - 1 - j)))) /\
        line !! Z.to_nat cw = Some newline.
Proof.
  unfold main. intros Hrun Hstatus.
  destruct (font_file e) as [file|];
    [|inversion Hrun; subst r; discriminate].
  destruct (bin_creatable e);
    [|inversion Hrun; subst r; discriminate].
  cbv zeta in Hrun. simpl negb in Hrun. cbv iota in Hrun.
  pose proof (read_geometry_bounds file (garbage e)) as [Hcw _].
  set (g := read_geometry file (garbage e)) in *.
  destruct (malloc (heap_charData e) _ (old_charData (garbage e)))
    as [fresh|] eqn:Hm1;
    [|inversion Hrun; subst r; discriminate].
  destruct (load_pixels file _ g fresh) as [data|f] eqn:Hload;
    cbn [bind] in Hrun; [|discriminate].
  destruct (malloc (heap_character e) _ (old_character (garbage e)))
    as [character|] eqn:Hm2;
    [|inversion Hrun; subst r; discriminate].
  destruct (print_glyphs data _ _ _ 128 0 character) as [out|f] eqn:Hout;
    cbn [bind] in Hrun; [|discriminate].
  inversion Hrun; subst r. clear Hrun Hstatus. cbn [font_bin].
  apply malloc_Some in Hm2 as [Hch Hlc].
  apply print_glyphs_spec in Hout as (lines & -> & Hlen & Hget); [|lia].
  exists file, fresh, data, lines.
  split; [reflexivity|]. cbv zeta. fold g.
  split; [exact Hm1|]. split; [exact Hload|]. split; [reflexivity|].
  split; [lia|].
  intros k Hk.
  set (ch := charHeight g) in *. set (cw := charWidth g) in *.
  assert (Hch' : 0 < ch) by lia.
  pose proof (Z.div_mod k ch ltac:(lia)) as Hdm.
  pose proof (Z.mod_pos_bound k ch Hch') as Hmod.
  assert (Hq : 0 <= k / ch < 128).
  { split; [apply Z.div_pos; lia|].
    apply Z.div_lt_upper_bound; lia. }
  destruct (Hget (Z.to_nat (k / ch)) (Z.to_nat (k mod ch)))
    as (c & rows & v & line & Hc & Hrows & Hv & Hline & Hlook); try lia.
  rewrite Z.add_0_l, Z2Nat.id in Hrows by lia.
  assert (Hcw0 : 0 <= cw).
  { destruct (Z.lt_ge_cases cw 0) as [Hneg|]; [|assumption].
    rewrite assembleCharacter_negative_width in Hrows by lia.
    discriminate. }
  apply toBinary_spec in Hline as (Hl1 & Hl2 & Hl3);
    [|unfold INT_MAX; lia].
  exists c, rows, v, line.
  split; [congruence|]. split; [exact Hrows|]. split; [exact Hv|].
  split; [|auto].
  rewrite <- Hlook. f_equal. nia.
Qed.

Lemma font_bin_lines_witness :
  exists r lines,
    main {| argv1 := text "font.bmp";
            font_file :=
              Some (replicate 10 x00 ++ [x1a; x00; x00; x00]
                    ++ replicate 4 x00 ++ [x40; x00; x00; x00]
                    ++ [x02; x00; x00; x00] ++ replicate 16 xaa);
            bin_creatable := true; heap_charData := true;
            heap_character := true; garbage := zeroed |} = Ok r /\
    font_bin r = Some (concat lines) /\
    Z.of_nat (length lines) = 128.
Proof.
  set (e := {| argv1 := text "font.bmp";
               font_file :=
                 Some (replicate 10 x00 ++ [x1a; x00; x00; x00]
                       ++ replicate 4 x00 ++ [x40; x00; x00; x00]
                       ++ [x02; x00; x00; x00] ++ replicate 16 xaa);
               bin_creatable := true; heap_charData := true;
               heap_character := true; garbage := zeroed |}).
  destruct (main e) as [r|f] eqn:Hmain; [|vm_compute in Hmain; discriminate].
  destruct (font_bin_lines e r Hmain) as (file & fresh & data & lines & H).
  - pose proof Hmain as Hm. vm_compute in Hm. inversion Hm. reflexivity.
  - cbv zeta in H. destruct H as (Hfile & _ & _ & Hbin & Hlen & _).
    injection Hfile as <-.
    exists r, lines. split; [reflexivity|]. split; [exact Hbin | exact Hlen].
Defined.

(** ** Runs on a well-formed sheet *)

Lemma toBinary_loop_total n k :
  (k <= 32)%nat -> exists ds, toBinary_loop n k = Ok ds.
Proof.
  induction k as [|k IH]; intros Hk; [eexists; reflexivity|].
  destruct IH as [ds Hds]; [lia|].
  cbn [toBinary_loop]. unfold u32_shr.
  rewrite count_ok_true by lia. cbn [bind]. rewrite Hds. cbn [bind].
  eexists. reflexivity.
Qed.

(** The rows of a glyph, for a buffer that holds at least the sheet. *)
Lemma assembleCharacter_pixels data cw ch dpl character a :
  1 <= cw <= 31 -> 1 <= ch -> dpl * 32 = 64 * cw ->
  128 * cw * ch <= INT_MAX ->
  128 * cw * ch <= 32 * Z.of_nat (length data) ->
  (Z.to_nat ch <= length character)%nat ->
  0 <= a <= 127 ->
  exists rows,
    assembleCharacter data a cw ch dpl character = Ok rows /\
    length rows = length character /\
    forall s, 0 <= s < ch ->
      exists v,
        rows !! Z.to_nat s = Some v /\ 0 <= v < 2 ^ cw /\
        forall p, 0 <= p < cw ->
          Z.testbit v (cw - 1 - p) = pixel data (cell_bit cw ch dpl a s p).
Proof.
  intros Hcw Hch Hd Hsize Hlen Hchar Ha.
  assert (Hbits : glyph_bits a cw ch dpl = cell_bit cw ch dpl a 0 0).
  { rewrite glyph_bits_wrap, glyph_bits_cell by lia.
    apply wrap_int_id.
    destruct (cell_bit_range cw ch dpl a 0 0); try lia.
    unfold is_int, INT_MIN, INT_MAX in *. lia. }
  assert (Hcell : forall s p, cell_bit cw ch dpl a 0 0 + s * (dpl * 32) + p
                              = cell_bit cw ch dpl a s p)
    by (intros; unfold cell_bit; lia).
  assert (Hb0 : 0 <= glyph_bits a cw ch dpl)
    by (rewrite Hbits; apply (cell_bit_range cw ch dpl a 0 0); lia).
  assert (Hlast : glyph_bits a cw ch dpl + (ch - 1) * (dpl * 32) <= INT_MAX).
  { rewrite Hbits, <- (Z.add_0_r (_ + _)), Hcell.
    destruct (cell_bit_range cw ch dpl a (ch - 1) 0); lia. }
  assert (Hrow : forall s, (s < Z.to_nat ch)%nat ->
    exists v,
      checked_row data cw (dword_at dpl (glyph_bits a cw ch dpl) s)
                  (offset_at dpl (glyph_bits a cw ch dpl) s) = Ok v /\
      0 <= v < 2 ^ cw /\
      forall p, 0 <= p < cw ->
        Z.testbit v (cw - 1 - p)
        = pixel data (cell_bit cw ch dpl a (Z.of_nat s) p)).
  { intros s Hs. unfold dword_at, offset_at.
    destruct (offset_at_stable dpl (glyph_bits a cw ch dpl) ch s)
      as [-> _]; try lia.
    rewrite Hbits, <- (Z.add_0_r (_ + _)), Hcell.
    destruct (cell_bit_range cw ch dpl a (Z.of_nat s) 0) as [Hlo Hhi];
      try lia.
    rewrite rem_mod_nonneg, quot_div_nonneg by lia.
    destruct (checked_row_pixels data cw (cell_bit cw ch dpl a (Z.of_nat s) 0))
      as (v & Hv & Hrange & Hpix); try lia.
    exists v. split; [exact Hv|]. split; [exact Hrange|].
    intros p Hp. rewrite Hpix by lia. f_equal. unfold cell_bit. lia. }
  rewrite assembleCharacter_is_rechecked by lia.
  unfold assembleCharacter_rechecked.
  destruct (scan_total (checked_row data cw) dpl (Z.to_nat ch) 0
              (glyph_bits a cw ch dpl) character) as [rows Hrows];
    [lia | simpl; lia | |].
  { intros s Hs. destruct (Hrow s Hs) as (v & Hv & _). eauto. }
  exists rows. split; [exact Hrows|].
  apply scan_inv in Hrows as (Hl & Hget & _); [|lia].
  split; [exact Hl|].
  intros s Hs.
  destruct (Hrow (Z.to_nat s) ltac:(lia)) as (v & Hv & Hrange & Hpix).
  destruct (Hget (Z.to_nat s) ltac:(lia)) as (v' & Hv' & Hlook).
  exists v. rewrite Hv in Hv'. inversion Hv'; subst v'.
  split; [exact Hlook|]. split; [exact Hrange|].
  intros p Hp. rewrite Hpix by lia. do 2 f_equal. lia.
Qed.

Lemma toBinary_total n width :
  0 <= width <= 32 -> exists line, toBinary n width = Ok line.
Proof.
  intros Hw. unfold toBinary.
  destruct (toBinary_loop_total n (Z.to_nat (int_sub width 1 + 1)))
    as [ds Hds].
  - rewrite int_sub_id by (unfold is_int, INT_MIN, INT_MAX; lia). lia.
  - rewrite Hds. eexists. reflexivity.
Qed.

Lemma print_rows_total character cw n : forall j,
  0 <= cw <= 32 -> 0 <= j ->
  (Z.to_nat j + n <= length character)%nat ->
  exists out, print_rows character cw n j = Ok out.
Proof.
  induction n as [|n IH]; intros j Hcw Hj Hlen; [eexists; reflexivity|].
  cbn [print_rows].
  destruct (lookup_lt_is_Some_2 character (Z.to_nat j) ltac:(lia)) as [v Hv].
  rewrite (proj2 (load_Ok character j v) (conj Hj Hv)). cbn [bind].
  destruct (toBinary_total v cw Hcw) as [line ->]. cbn [bind].
  destruct (IH (j + 1) Hcw ltac:(lia) ltac:(lia)) as [rest ->].
  eexists. reflexivity.
Qed.

Lemma print_glyphs_total data cw ch dpl n : forall i character,
  1 <= cw <= 31 -> 1 <= ch -> dpl * 32 = 64 * cw ->
  128 * cw * ch <= INT_MAX ->
  128 * cw * ch <= 32 * Z.of_nat (length data) ->
  (Z.to_nat ch <= length character)%nat ->
  0 <= i -> i + Z.of_nat n <= 128 ->
  exists out, print_glyphs data cw ch dpl n i character = Ok out.
Proof.
  induction n as [|n IH]; intros i character Hcw Hch Hd Hsize Hlen Hc Hi Hn;
    [eexists; reflexivity|].
  cbn [print_glyphs].
  destruct (assembleCharacter_pixels data cw ch dpl character i)
    as (rows & -> & Hl & _); try lia.
  cbn [bind].
  destruct (print_rows_total rows cw (Z.to_nat ch) 0) as [txt ->];
    [lia | lia | simpl; lia |].
  cbn [bind].
  destruct (IH (i + 1) rows) as [rest ->]; try lia.
  eexists. reflexivity.
Qed.

Lemma fseek_nonneg pos offset : 0 <= pos -> 0 <= fseek pos offset.
Proof. intros H. unfold fseek. destruct (Z.ltb_spec offset 0); lia. Qed.

Lemma load_pixels_total file start g fresh :
  0 <= start ->
  0 <= imageHeight g <= INT_MAX -> 0 <= dwordsPerLine g ->
  dwordsPerLine g * imageHeight g <= INT_MAX ->
  length fresh = Z.to_nat (dwordsPerLine g * imageHeight g) ->
  exists data, load_pixels file start g fresh = Ok data /\
               length data = length fresh.
Proof.
  intros Hstart Hih Hdpl Hsize Hlen. unfold load_pixels.
  rewrite int_sub_id by (unfold is_int, INT_MIN, INT_MAX in *; lia).
  replace (imageHeight g - 1 + 1) with (imageHeight g) by lia.
  destruct (read_rows_spec file (dwordsPerLine g) (Z.to_nat (imageHeight g))
              (fseek start (pixelDataOffset g))
              (fseek start (pixelDataOffset g)) fresh)
    as (data & Hrun & Hl & _);
    [ apply fseek_nonneg; exact Hstart | left; reflexivity | exact Hdpl
    | rewrite Hlen, !Z2Nat.id by nia; lia
    | rewrite Z2Nat.id by lia; lia | ].
  exists data. split; assumption.
Qed.

Lemma read_geometry_lines (file : list byte) (garbage : storage) :
  let g := read_geometry file garbage in
  bytesPerLine g = 8 * charWidth g /\
  dwordsPerLine g = 2 * charWidth g /\
  (0 <= imageWidth g ->
   dwordsPerLine g * 32 <= imageWidth g < dwordsPerLine g * 32 + 64).
Proof.
  unfold read_geometry, read_header.
  cbn [snd charWidth bytesPerLine dwordsPerLine imageWidth].
  set (iw := snd (fread_int file _ (stack_imageWidth garbage))).
  assert (Hiw : is_int iw) by apply fread_int_is_int.
  unfold is_int, INT_MIN, INT_MAX in Hiw.
  assert (Hbpl : Z.quot (int_mul (Z.quot iw 64) 64) 8 = 8 * Z.quot iw 64).
  { unfold int_mul. rewrite wrap_int_id
      by (unfold is_int, INT_MIN, INT_MAX; Z.quot_rem_to_equations; lia).
    replace (Z.quot iw 64 * 64) with (8 * Z.quot iw 64 * 8) by lia.
    apply Z.quot_mul. lia. }
  rewrite Hbpl.
  assert (Hdpl : Z.quot (8 * Z.quot iw 64) 4 = 2 * Z.quot iw 64).
  { replace (8 * Z.quot iw 64) with (2 * Z.quot iw 64 * 4) by lia.
    apply Z.quot_mul. lia. }
  rewrite Hdpl. split; [reflexivity|]. split; [reflexivity|].
  intros Hpos. Z.quot_rem_to_equations. lia.
Qed.

(** The header is read from bytes 10..13 and 18..25; the stream is left
    between 18 and 26. *)
Lemma header_end_range file garbage :
  18 <= header_end file garbage <= 26.
Proof.
  unfold header_end, read_header, fread_int. cbn [fst].
  set (r1 := fread32 file (fseek 0 10) _).
  change (fseek (fst r1) (14 + 4)) with 18.
  set (r2 := fread32 file 18 _).
  pose proof (fread32_pos file 18 (wrap_u32 (stack_imageWidth garbage))) as H2.
  fold r2 in H2.
  pose proof (fread32_pos file (fst r2)
                (wrap_u32 (stack_imageHeight garbage))) as H3.
  lia.
Qed.

(** A run on a well-formed sheet, step by step. *)
Lemma main_valid_sheet e file :
  font_file e = Some file -> bin_creatable e = true ->
  heap_charData e = true -> heap_character e = true ->
  let g := read_geometry file (garbage e) in
  1 <= charWidth g <= 31 -> 2 <= imageHeight g ->
  64 * charWidth g * imageHeight g <= INT_MAX ->
  exists fresh data character out,
    malloc true (dwordsPerLine g * imageHeight g) (old_charData (garbage e))
      = Some fresh /\
    length fresh = Z.to_nat (dwordsPerLine g * imageHeight g) /\
    load_pixels file (header_end file (garbage e)) g fresh = Ok data /\
    length data = length fresh /\
    malloc true (charHeight g) (old_character (garbage e)) = Some character /\
    length character = Z.to_nat (charHeight g) /\
    print_glyphs data (charWidth g) (charHeight g) (dwordsPerLine g)
                 128 0 character = Ok out /\
    main e = Ok {| status := 0; stderr := []; font_bin := Some out;
                   events := [Fopen Font; Fopen Bin; Malloc CharData;
                              Malloc Character; Free CharData;
                              Free Character; Fclose Font; Fclose Bin] |}.
Proof.
  intros Hfile Hbin Hroom1 Hroom2 g Hcw Hih Hsize.
  destruct (read_geometry_lines file (garbage e)) as (_ & Hdpl & _).
  fold g in Hdpl.
  assert (Hch : 1 <= charHeight g /\ 2 * charHeight g <= imageHeight g).
  { unfold g, read_geometry, read_header. cbn [snd charHeight imageHeight].
    unfold g, read_geometry, read_header in Hih. cbn [snd imageHeight] in Hih.
    Z.quot_rem_to_equations. lia. }
  unfold INT_MAX in Hsize.
  pose proof (header_end_range file (garbage e)) as Hend.
  destruct (malloc_room (dwordsPerLine g * imageHeight g)
              (old_charData (garbage e))) as (fresh & Hm1 & Hl1 & _); [nia|].
  destruct (malloc_room (charHeight g) (old_character (garbage e)))
    as (character & Hm2 & Hl2 & _); [lia|].
  destruct (load_pixels_total file (header_end file (garbage e)) g fresh)
    as (data & Hload & Hlen); try (unfold INT_MAX; nia); try lia.
  destruct (print_glyphs_total data (charWidth g) (charHeight g)
              (dwordsPerLine g) 128 0 character)
    as [out Hout]; try (unfold INT_MAX; nia); try lia.
  exists fresh, data, character, out.
  repeat (split; [assumption|]).
  unfold main. rewrite Hfile, Hbin. cbv zeta. simpl negb. cbv iota.
  fold g. rewrite Hroom1, Hroom2, Hm1, Hload. cbn [bind].
  rewrite Hm2, Hout. reflexivity.
Qed.

(** ** Exit status and resources *)

Ltac run_ends :=
  eexists; simpl; repeat (split; [reflexivity|]); reflexivity.

Lemma main_success e file :
  font_file e = Some file -> bin_creatable e = true ->
  heap_charData e = true -> heap_character e = true ->
  let g := read_geometry file (garbage e) in
  1 <= charWidth g <= 31 -> 2 <= imageHeight g ->
  64 * charWidth g * imageHeight g <= INT_MAX ->
  exists r, main e = Ok r /\ status r = 0 /\
            stderr r = [] /\ held_after [] (events r) = [].
Proof.
  intros Hfile Hbin Hroom1 Hroom2 g Hcw Hih Hsize.
  destruct (main_valid_sheet e file Hfile Hbin Hroom1 Hroom2 Hcw Hih Hsize)
    as (fresh & data & character & out & _ & _ & _ & _ & _ & _ & _ & Hrun).
  rewrite Hrun. run_ends.
Qed.

Lemma main_no_source e :
  font_file e = None ->
  exists r, main e = Ok r /\ status r = 1 /\
            stderr r = msg_open (argv1 e) /\ held_after [] (events r) = [].
Proof. intros H. unfold main. rewrite H. run_ends. Qed.

Lemma main_no_destination e file :
  font_file e = Some file -> bin_creatable e = false ->
  exists r, main e = Ok r /\ status r = 1 /\
            stderr r = msg_create /\ held_after [] (events r) = [].
Proof. intros H1 H2. unfold main. rewrite H1, H2. run_ends. Qed.

Lemma main_no_pixel_buffer e file :
  font_file e = Some file -> bin_creatable e = true ->
  malloc (heap_charData e)
         (dwordsPerLine (read_geometry file (garbage e))
          * imageHeight (read_geometry file (garbage e)))
         (old_charData (garbage e)) = None ->
  exists r, main e = Ok r /\ status r = 1 /\
            stderr r = msg_alloc /\ held_after [] (events r) = [].
Proof.
  intros H1 H2 H3. unfold main. rewrite H1, H2.
  cbv zeta. simpl negb. cbv iota. rewrite H3. run_ends.
Qed.

Lemma main_no_row_buffer e file fresh data :
  font_file e = Some file -> bin_creatable e = true ->
  malloc (heap_charData e)
         (dwordsPerLine (read_geometry file (garbage e))
          * imageHeight (read_geometry file (garbage e)))
         (old_charData (garbage e))
    = Some fresh ->
  load_pixels file (header_end file (garbage e))
              (read_geometry file (garbage e)) fresh = Ok data ->
  malloc (heap_character e) (charHeight (read_geometry file (garbage e)))
         (old_character (garbage e)) = None ->
  exists r, main e = Ok r /\ status r = 1 /\
            stderr r = msg_alloc /\ held_after [] (events r) = [].
Proof.
  intros H1 H2 H3 H4 H5. unfold main. rewrite H1, H2.
  cbv zeta. simpl negb. cbv iota. rewrite H3, H4.
  cbn [bind]. rewrite H5. run_ends.
Qed.

(** The shape of a run that ends. *)
Lemma main_Ok e r :
  main e = Ok r ->
  (status r = 0 \/ status r = 1) /\
  (status r = 1 <-> acquisition_fails e) /\
  (status r = 1 -> stderr r <> []) /\
  held_after [] (events r) = [].
Proof.
  unfold main, acquisition_fails.
  destruct (font_file e) as [file|].
  2: { intros [= <-]. simpl. repeat split; auto; discriminate. }
  destruct (bin_creatable e).
  2: { intros [= <-]. simpl. repeat split; auto; discriminate. }
  cbv zeta. simpl negb. cbv iota.
  destruct (malloc (heap_charData e) _ (old_charData (garbage e)))
    as [fresh|].
  2: { intros [= <-]. simpl. repeat split; auto; discriminate. }
  destruct (load_pixels file _ _ fresh) as [data|f]; cbn [bind];
    [|discriminate].
  destruct (malloc (heap_character e) _ (old_character (garbage e)))
    as [character|].
  2: { intros [= <-]. simpl. repeat split; auto; discriminate. }
  destruct (print_glyphs data _ _ _ 128 0 character) as [out|f]; cbn [bind];
    [|discriminate].
  intros [= <-]. simpl. repeat split; auto; try discriminate.
  intros [H | [H | H]]; discriminate.
Qed.

(** C8.  Success: when both files open and both buffers are granted, a
    run on a well-formed sheet (glyphs 1 to 31 pixels wide, at least two
    pixel rows, no more than [INT_MAX] bits) ends with status 0, nothing
    on the error stream and nothing held.  Failure: a run that cannot
    open the source, cannot create font.bin or cannot allocate the pixel
    buffer ends with status 1, its diagnostic on the error stream and
    nothing held; so does a run that has loaded the pixels and cannot
    allocate the row buffer.  Every run that ends has status 0 or 1; it
    has status 1 exactly when one of these failures occurred, with a
    diagnostic printed, and in either case every stream opened is closed
    and every block allocated is freed. *)
Theorem main_exit_status (e : env) :
  (forall file, font_file e = Some file -> bin_creatable e = true ->
   heap_charData e = true -> heap_character e = true ->
   let g := read_geometry file (garbage e) in
   1 <= charWidth g <= 31 -> 2 <= imageHeight g ->
   64 * charWidth g * imageHeight g <= INT_MAX ->
   exists r, main e = Ok r /\ status r = 0 /\
             stderr r = [] /\ held_after [] (events r) = []) /\
  (font_file e = None ->
   exists r, main e = Ok r /\ status r = 1 /\
             stderr r = msg_open (argv1 e) /\ held_after [] (events r) = []) /\
  (forall file, font_file e = Some file -> bin_creatable e = false ->
   exists r, main e = Ok r /\ status r = 1 /\
             stderr r = msg_create /\ held_after [] (events r) = []) /\
  (forall file, font_file e = Some file -> bin_creatable e = true ->
   let g := read_geometry file (garbage e) in
   malloc (heap_charData e) (dwordsPerLine g * imageHeight g)
          (old_charData (garbage e)) = None ->
   exists r, main e = Ok r /\ status r = 1 /\
             stderr r = msg_alloc /\ held_after [] (events r) = []) /\
  (forall file fresh data,
   font_file e = Some file -> bin_creatable e = true ->
   let g := read_geometry file (garbage e) in
   malloc (heap_charData e) (dwordsPerLine g * imageHeight g)
          (old_charData (garbage e)) = Some fresh ->
   load_pixels file (header_end file (garbage e)) g fresh = Ok data ->
   malloc (heap_character e) (charHeight g) (old_character (garbage e))
     = None ->
   exists r, main e = Ok r /\ status r = 1 /\
             stderr r = msg_alloc /\ held_after [] (events r) = []) /\
  (forall r, main e = Ok r ->
   (status r = 0 \/ status r = 1) /\
   (status r = 1 <-> acquisition_fails e) /\
   (status r = 1 -> stderr r <> []) /\
   held_after [] (events r) = []).
Proof.
  split; [apply main_success|].
  split; [apply main_no_source|].
  split; [apply main_no_destination|].
  split; [apply main_no_pixel_buffer|].
  split; [apply main_no_row_buffer|].
  apply main_Ok.
Qed.

(** A 64 x 2 sheet, one pixel to a glyph, is converted with status 0. *)
Lemma main_exit_status_witness :
  exists r,
    main {| argv1 := text "font.bmp";
            font_file :=
              Some (replicate 10 x00 ++ [x1a; x00; x00; x00]
                    ++ replicate 4 x00 ++ [x40; x00; x00; x00]
                    ++ [x02; x00; x00; x00] ++ replicate 16 xaa);
            bin_creatable := true; heap_charData := true;
            heap_character := true; garbage := zeroed |} = Ok r /\
    status r = 0 /\ stderr r = [] /\ held_after [] (events r) = [].
Proof.
  destruct (main_exit_status
              {| argv1 := text "font.bmp";
                 font_file :=
                   Some (replicate 10 x00 ++ [x1a; x00; x00; x00]
                         ++ replicate 4 x00 ++ [x40; x00; x00; x00]
                         ++ [x02; x00; x00; x00] ++ replicate 16 xaa);
                 bin_creatable := true; heap_charData := true;
                 heap_character := true; garbage := zeroed |}) as [H _].
  apply (H (replicate 10 x00 ++ [x1a; x00; x00; x00]
            ++ replicate 4 x00 ++ [x40; x00; x00; x00]
            ++ [x02; x00; x00; x00] ++ replicate 16 xaa)).
  - reflexivity.
  - reflexivity.
  - reflexivity.
  - reflexivity.
  - vm_compute. split; discriminate.
  - vm_compute. discriminate.
  - vm_compute. discriminate.
Defined.

(** * Further properties of the code *)

(** ** [toBinary] *)

Lemma toBinary_loop_ext n m k :
  (forall i, 0 <= i < Z.of_nat k -> Z.testbit n i = Z.testbit m i) ->
  toBinary_loop n k = toBinary_loop m k.
Proof.
  induction k as [|k IH]; intros H; [reflexivity|].
  cbn [toBinary_loop]. rewrite IH by (intros i Hi; apply H; lia).
  unfold u32_shr. destruct (count_ok (Z.of_nat k)); [|reflexivity].
  cbn [bind]. rewrite !digit_bit, (H (Z.of_nat k)) by lia. reflexivity.
Qed.

(** [toBinary] writes a line for every width from 0 to 32, and the line
    tells apart exactly the low [width] bits of the value: two values
    give the same line if and only if they agree modulo [2 ^ width]. *)
Theorem toBinary_same_line (n m width : Z) :
  0 <= width <= 32 ->
  (exists line, toBinary n width = Ok line) /\
  (toBinary n width = toBinary m width <->
   n mod 2 ^ width = m mod 2 ^ width).
Proof.
  intros Hw.
  assert (Htotal : forall x, exists line, toBinary x width = Ok line).
  { intros x. unfold toBinary.
    destruct (toBinary_loop_total x (Z.to_nat (int_sub width 1 + 1)))
      as [ds Hds].
    - rewrite int_sub_id by (unfold is_int, INT_MIN, INT_MAX; lia). lia.
    - rewrite Hds. eexists. reflexivity. }
  split; [apply Htotal|]. split.
  - intros Heq. destruct (Htotal n) as [line Hn].
    assert (Hm : toBinary m width = Ok line) by congruence.
    apply toBinary_spec in Hn as (_ & Hn & _); [|unfold INT_MAX; lia].
    apply toBinary_spec in Hm as (_ & Hm & _); [|unfold INT_MAX; lia].
    apply Z.bits_inj'. intros i Hi.
    rewrite !Z.testbit_mod_pow2 by lia.
    destruct (Z.ltb_spec i width); [|reflexivity]. simpl.
    pose proof (Hn (width - 1 - i) ltac:(lia)) as H1.
    pose proof (Hm (width - 1 - i) ltac:(lia)) as H2.
    rewrite H1 in H2. inversion H2 as [H3].
    replace (width - 1 - (width - 1 - i)) with i in H3 by lia.
    destruct (Z.testbit n i), (Z.testbit m i); simpl in H3;
      congruence.
  - intros Heq. unfold toBinary. f_equal.
    apply toBinary_loop_ext. intros i Hi.
    rewrite int_sub_id in Hi by (unfold is_int, INT_MIN, INT_MAX; lia).
    apply (f_equal (fun x => Z.testbit x i)) in Heq.
    rewrite !Z.testbit_mod_pow2 in Heq by lia.
    destruct (Z.ltb_spec i width); [exact Heq | lia].
Qed.

Lemma toBinary_same_line_witness :
  toBinary 21 5 = toBinary (21 + 32 * 7) 5 /\
  toBinary 21 5 = Ok (text "10101" ++ [newline]).
Proof.
  destruct (toBinary_same_line 21 (21 + 32 * 7) 5) as [_ [_ H]]; [lia|].
  split; [apply H; reflexivity | reflexivity].
Defined.

(** A width of 0 or less: [toBinary] writes no digit and the line
    terminator alone, whatever the value. *)
Theorem toBinary_no_digit (n width : Z) :
  INT_MIN < width <= 0 -> toBinary n width = Ok [newline].
Proof.
  intros Hw. unfold toBinary.
  rewrite int_sub_id by (unfold is_int, INT_MIN, INT_MAX in *; lia).
  replace (Z.to_nat (width - 1 + 1)) with 0%nat by lia. reflexivity.
Qed.

Lemma toBinary_no_digit_witness :
  toBinary 2863311530 0 = Ok [newline].
Proof.
  apply (toBinary_no_digit 2863311530 0). vm_compute. split; congruence.
Defined.

(** ** The row buffer of [assembleCharacter] *)

Lemma scan_frame_high row dpl n : forall i bits character rows,
  0 <= i ->
  scan row dpl n i bits (Z.quot bits 32) (Z.rem bits 32) character = Ok rows ->
  forall j, (Z.to_nat i + n <= j)%nat -> rows !! j = character !! j.
Proof.
  induction n as [|n IH]; intros i bits character rows Hi H j Hj.
  - inversion H. reflexivity.
  - cbn [scan] in H.
    apply bind_Ok in H as (v & Hv & H).
    apply bind_Ok in H as (c' & Hc' & H).
    apply store_Ok in Hc' as [Hrange ->].
    assert (Hi' : 0 <= i + 1) by lia.
    rewrite (IH _ _ _ _ Hi' H j) by lia.
    apply list_lookup_insert_ne. lia.
Qed.

(** The rows a loop computes do not depend on what the row buffer
    held before. *)
Lemma scan_fresh_rows row dpl n bits c1 c2 r1 :
  length c1 = length c2 ->
  scan row dpl n 0 bits (Z.quot bits 32) (Z.rem bits 32) c1 = Ok r1 ->
  exists r2,
    scan row dpl n 0 bits (Z.quot bits 32) (Z.rem bits 32) c2 = Ok r2 /\
    forall s, (s < n)%nat -> r2 !! s = r1 !! s.
Proof.
  intros Hlen H1.
  apply scan_inv in H1 as (Hl1 & Hrows1 & _); [|lia].
  assert (Hfit : (n <= length c2)%nat).
  { destruct n as [|n]; [lia|].
    destruct (Hrows1 n ltac:(lia)) as (v & _ & Hget).
    apply lookup_lt_Some in Hget. simpl in Hget. lia. }
  destruct (scan_total row dpl n 0 bits c2) as [r2 H2]; [lia | simpl; lia | |].
  { intros s Hs. destruct (Hrows1 s Hs) as (v & Hv & _). eauto. }
  exists r2. split; [exact H2|].
  apply scan_inv in H2 as (_ & Hrows2 & _); [|lia].
  intros s Hs.
  destruct (Hrows1 s Hs) as (v1 & Hv1 & Hg1).
  destruct (Hrows2 s Hs) as (v2 & Hv2 & Hg2).
  simpl in Hg1, Hg2. congruence.
Qed.

(** [assembleCharacter] writes rows 0 .. [charHeight - 1] of the row
    buffer and nothing else: the buffer keeps its length and every cell
    from [charHeight] on keeps its content. *)
Theorem assembleCharacter_frame (data : list Z) (a cw ch dpl : Z)
    (character rows : list Z) :
  assembleCharacter data a cw ch dpl character = Ok rows ->
  length rows = length character /\
  forall j, (Z.to_nat ch <= j)%nat -> rows !! j = character !! j.
Proof.
  intros H. split; [exact (assembleCharacter_length _ _ _ _ _ _ _ H)|].
  unfold assembleCharacter in H.
  destruct (onBoundary _ cw =? 0); intros j Hj;
    apply (scan_frame_high _ _ _ _ _ _ _ (Z.le_refl 0) H); simpl; lia.
Qed.

Lemma assembleCharacter_frame_witness :
  exists rows,
    assembleCharacter [2; 2684354560] 6 5 1 10 [7; 8; 9] = Ok rows /\
    rows !! 1%nat = Some 8 /\ rows !! 2%nat = Some 9.
Proof.
  destruct (assembleCharacter [2; 2684354560] 6 5 1 10 [7; 8; 9])
    as [rows|f] eqn:H; [|vm_compute in H; discriminate].
  destruct (assembleCharacter_frame _ _ _ _ _ _ _ H) as [_ Hframe].
  exists rows. split; [reflexivity|].
  split; rewrite Hframe by (simpl; lia); reflexivity.
Defined.

(** The rows [assembleCharacter] returns do not depend on what the row
    buffer held: given another buffer of the same length the call
    completes as well, with the same rows 0 .. [charHeight - 1].  The
    buffer can so be reused from glyph to glyph, as [main] does. *)
Theorem assembleCharacter_reuses_buffer (data : list Z) (a cw ch dpl : Z)
    (c1 c2 r1 : list Z) :
  length c1 = length c2 ->
  assembleCharacter data a cw ch dpl c1 = Ok r1 ->
  exists r2,
    assembleCharacter data a cw ch dpl c2 = Ok r2 /\
    forall s, (s < Z.to_nat ch)%nat -> r2 !! s = r1 !! s.
Proof.
  unfold assembleCharacter. intros Hlen H.
  destruct (onBoundary _ cw =? 0);
    apply (scan_fresh_rows _ _ _ _ c1 c2 r1 Hlen H).
Qed.

Lemma assembleCharacter_reuses_buffer_witness :
  exists r2,
    assembleCharacter [2; 2684354560] 6 5 1 10 [0] = Ok r2 /\
    r2 !! 0%nat = Some 21.
Proof.
  destruct (assembleCharacter_reuses_buffer [2; 2684354560] 6 5 1 10
              [7] [0] [21]) as (r2 & H2 & Hsame).
  - reflexivity.
  - reflexivity.
  - exists r2. split; [exact H2|]. apply (Hsame 0%nat). vm_compute. lia.
Defined.

(** ** Row values fit the glyph width *)

Lemma count_ok_range n : count_ok n = true -> 0 <= n < 32.
Proof. unfold count_ok. intros H. apply andb_true_iff in H. lia. Qed.

Lemma single_row_range data cw dword offset v :
  single_row data cw dword offset = Ok v -> 0 <= v < 2 ^ cw.
Proof.
  unfold single_row, int_shl. intros H.
  destruct (count_ok cw) eqn:Hc; [|discriminate]. cbn [bind] in H.
  apply count_ok_range in Hc.
  apply bind_Ok in H as (w & _ & H).
  apply bind_Ok in H as (x & _ & H).
  inversion H; subst v.
  rewrite low_mask, Z.land_ones by lia.
  apply Z.mod_pos_bound, Z.pow_pos_nonneg; lia.
Qed.

Lemma straddle_row_range data cw dword offset v :
  0 <= cw <= 32 -> -32 < offset < 32 -> - 2 ^ 26 <= dword <= 2 ^ 26 ->
  straddle_row data cw dword offset = Ok v -> 0 <= v < 2 ^ cw.
Proof.
  intros Hcw Hoff Hd H. pose proof H as H'.
  unfold straddle_row, int_shl, u32_shl, u32_shr in H.
  rewrite !(int_sub_id 32 offset) in H
    by (unfold is_int, INT_MIN, INT_MAX; lia).
  rewrite !(int_sub_id cw) in H by (unfold is_int, INT_MIN, INT_MAX; lia).
  rewrite (int_add_id dword 1) in H
    by (unfold is_int, INT_MIN, INT_MAX; lia).
  destruct (count_ok (32 - offset)) eqn:H1; [|discriminate].
  cbn [bind] in H. apply count_ok_range in H1.
  apply bind_Ok in H as (w0 & Hw0 & H).
  destruct (count_ok (cw - (32 - offset))) eqn:H2; [|discriminate].
  cbn [bind] in H. apply count_ok_range in H2.
  rewrite !(int_sub_id 32 (cw - (32 - offset))) in H
    by (unfold is_int, INT_MIN, INT_MAX; lia).
  destruct (count_ok (32 - (cw - (32 - offset)))) eqn:H3; [|discriminate].
  cbn [bind] in H. apply count_ok_range in H3.
  apply bind_Ok in H as (w1 & Hw1 & _).
  rewrite (straddle_row_ok data cw dword offset w0 w1) in H'; try lia;
    try assumption; try (unfold is_int, INT_MIN, INT_MAX; lia).
  inversion H'; subst v. apply straddle_value_range; lia.
Qed.

(** Every row value a completed [assembleCharacter] has stored for a
    glyph at most 32 pixels wide lies in [0, 2 ^ charWidth): nothing is
    set above the bits [toBinary] prints. *)
Theorem assembleCharacter_row_range (data : list Z) (a cw ch dpl : Z)
    (character rows : list Z) (s : nat) (v : Z) :
  0 <= cw <= 32 ->
  assembleCharacter data a cw ch dpl character = Ok rows ->
  (s < Z.to_nat ch)%nat -> rows !! s = Some v ->
  0 <= v < 2 ^ cw.
Proof.
  intros Hcw H Hs Hv. unfold assembleCharacter in H.
  set (bits := glyph_bits a cw ch dpl) in H.
  assert (Hint : is_int (bits_at dpl bits s))
    by apply bits_at_is_int, glyph_bits_is_int.
  apply int_quot_rem32 in Hint as [Hq Hr].
  destruct (onBoundary (Z.rem bits 32) cw =? 0);
    apply scan_inv in H as (_ & Hrows & _); try lia;
    destruct (Hrows s Hs) as (v' & Hv' & Hget);
    rewrite Nat.add_0_l in Hget;
    assert (v' = v) by congruence; subst v'.
  - exact (single_row_range _ _ _ _ _ Hv').
  - exact (straddle_row_range _ _ _ _ _ Hcw Hr Hq Hv').
Qed.

Lemma assembleCharacter_row_range_witness : 0 <= 21 < 2 ^ 5.
Proof.
  apply (assembleCharacter_row_range [2; 2684354560] 6 5 1 10 [0] [21]
           0%nat 21).
  - lia.
  - reflexivity.
  - vm_compute. lia.
  - reflexivity.
Defined.

(** ** The geometry read from the header *)

(** Whatever the header holds, the line width the program works with
    is [64 * charWidth] bits: [bytesPerLine = 8 * charWidth] and
    [dwordsPerLine = 2 * charWidth], without overflow.  For a width
    that is not negative this is the image width rounded down to a
    multiple of 64. *)
Theorem read_geometry_stride (file : list byte) (garbage : storage) :
  let g := read_geometry file garbage in
  bytesPerLine g = 8 * charWidth g /\
  dwordsPerLine g = 2 * charWidth g /\
  (0 <= imageWidth g ->
   dwordsPerLine g * 32 <= imageWidth g < dwordsPerLine g * 32 + 64).
Proof. apply read_geometry_lines. Qed.

(** ** Files that end early *)

(** Loading follows the file as far as it goes and does not notice
    where it ends.  For a sheet whose words can be indexed by an [int],
    loading completes on any file; take the cell for file row [i] and
    column [j], its word being the four bytes at [pos + 4 * (i *
    dwordsPerLine + j)].  Byte [k] of that word, where the file has it,
    is byte [3 - k] of the cell, as for a whole word; where the file has
    ended, byte [3 - k] of the cell is byte [k] of what the block held
    there: the bytes [fread] could not fill are swapped as well. *)
Theorem loaded_bytes (file : list byte) (start : Z) (g : geometry)
    (fresh : list Z) :
  let ih := imageHeight g in
  let dpl := dwordsPerLine g in
  let pos := fseek start (pixelDataOffset g) in
  0 <= start ->
  0 <= ih <= INT_MAX -> 0 <= dpl -> dpl * ih <= INT_MAX ->
  length fresh = Z.to_nat (dpl * ih) ->
  Forall is_u32 fresh ->
  exists data,
    load_pixels file start g fresh = Ok data /\
    forall i j, 0 <= i < ih -> 0 <= j < dpl ->
      exists old w,
        fresh !! Z.to_nat ((ih - 1 - i) * dpl + j) = Some old /\
        data !! Z.to_nat ((ih - 1 - i) * dpl + j) = Some w /\
        forall k, 0 <= k < 4 ->
          byte_of w (3 - k) =
          match file !! Z.to_nat (pos + 4 * (i * dpl + j) + k) with
          | Some b => byte_val b
          | None => byte_of old k
          end.
Proof.
  intros ih dpl pos Hstart Hih Hdpl Hsize Hlen Hu32.
  assert (Hpos : 0 <= pos) by (apply fseek_nonneg; exact Hstart).
  assert (Hn : Z.to_nat (int_sub ih 1 + 1) = Z.to_nat ih).
  { rewrite int_sub_id; [f_equal; lia|].
    unfold is_int, INT_MIN, INT_MAX in *. lia. }
  destruct (read_rows_spec file dpl (Z.to_nat ih) pos pos fresh)
    as (data & Hrun & Hl & Hget & _);
    [ exact Hpos | left; reflexivity | exact Hdpl
    | rewrite Hlen, !Z2Nat.id by nia; lia
    | rewrite Z2Nat.id by lia; lia | ].
  exists data. unfold load_pixels. fold ih dpl pos. rewrite Hn.
  split; [exact Hrun|].
  intros i j Hi Hj.
  assert (Hin : (Z.to_nat ((ih - 1 - i) * dpl + j) < length fresh)%nat)
    by (rewrite Hlen; nia).
  destruct (lookup_lt_is_Some_2 _ _ Hin) as [old Hold].
  pose proof (proj1 (Forall_lookup _ _) Hu32 _ _ Hold) as Hu.
  exists old, (swapEndian32 (snd (fread32 file (pos + 4 * (i * dpl + j)) old))).
  split; [exact Hold|]. split.
  - replace ((ih - 1 - i) * dpl + j)
      with ((Z.of_nat (Z.to_nat ih) - 1 - Z.of_nat (Z.to_nat i)) * dpl + j)
      in * by lia.
    rewrite (Hget (Z.to_nat i) j old) by (lia || exact Hold).
    rewrite Z2Nat.id by lia. reflexivity.
  - intros k Hk.
    rewrite swapEndian32_byte by (try apply fread32_is_u32; auto; lia).
    replace (3 - (3 - k)) with k by lia.
    apply fread32_byte; [nia | exact Hk].
Qed.

(** A file that ends two bytes into the third of four words, loaded
    into a block that held 0xAABBCCDD in every cell. *)
Lemma loaded_bytes_witness :
  load_pixels
    (replicate 26 x00 ++ [x80; x01; x02; x03; x04; x05; x06; x07; x08; x09])
    26
    {| pixelDataOffset := 26; imageWidth := 64; imageHeight := 2;
       charWidth := 1; charHeight := 1; bytesPerLine := 8;
       dwordsPerLine := 2 |} (replicate 4 2864434397)
  = Ok [134855594; 3721182122; 2147549699; 67438087].
Proof.
  destruct (loaded_bytes
              (replicate 26 x00
               ++ [x80; x01; x02; x03; x04; x05; x06; x07; x08; x09])
              26
              {| pixelDataOffset := 26; imageWidth := 64; imageHeight := 2;
                 charWidth := 1; charHeight := 1; bytesPerLine := 8;
                 dwordsPerLine := 2 |} (replicate 4 2864434397))
    as (data & Hrun & _).
  - lia.
  - vm_compute. split; discriminate.
  - simpl. lia.
  - vm_compute. discriminate.
  - reflexivity.
  - apply Forall_replicate. unfold is_u32. lia.
  - rewrite Hrun. vm_compute in Hrun. inversion Hrun. reflexivity.
Defined.

(** ** Conversion of a well-formed sheet *)

(** A sheet whose header declares glyphs 1 to 31 pixels wide, at least
    two pixel rows and no more than [INT_MAX] bits in all is converted
    without fault, whatever the rest of the file holds and however
    short it is: when both files open and both buffers are granted,
    the run ends with status 0, nothing on the error stream and
    font.bin written. *)
Theorem main_converts_valid_sheet (e : env) (file : list byte) :
  font_file e = Some file -> bin_creatable e = true ->
  heap_charData e = true -> heap_character e = true ->
  let g := read_geometry file (garbage e) in
  1 <= charWidth g <= 31 -> 2 <= imageHeight g ->
  64 * charWidth g * imageHeight g <= INT_MAX ->
  exists r out,
    main e = Ok r /\ status r = 0 /\ stderr r = [] /\
    font_bin r = Some out.
Proof.
  intros Hfile Hbin Hroom1 Hroom2 g Hcw Hih Hsize.
  destruct (main_valid_sheet e file Hfile Hbin Hroom1 Hroom2 Hcw Hih Hsize)
    as (fresh & data & character & out & _ & _ & _ & _ & _ & _ & _ & Hrun).
  eexists. exists out. rewrite Hrun. repeat split; reflexivity.
Qed.

Lemma main_converts_valid_sheet_witness :
  exists r out,
    main {| argv1 := text "font.bmp";
            font_file :=
              Some (replicate 10 x00 ++ [x1a; x00; x00; x00]
                    ++ replicate 4 x00 ++ [x40; x00; x00; x00]
                    ++ [x02; x00; x00; x00] ++ replicate 16 xaa);
            bin_creatable := true; heap_charData := true;
            heap_character := true; garbage := zeroed |} = Ok r /\
    status r = 0 /\ stderr r = [] /\ font_bin r = Some out.
Proof.
  apply (main_converts_valid_sheet _
           (replicate 10 x00 ++ [x1a; x00; x00; x00]
            ++ replicate 4 x00 ++ [x40; x00; x00; x00]
            ++ [x02; x00; x00; x00] ++ replicate 16 xaa)).
  - reflexivity.
  - reflexivity.
  - reflexivity.
  - reflexivity.
  - vm_compute. split; discriminate.
  - vm_compute. discriminate.
  - vm_compute. discriminate.
Defined.

(** ** What a run leaves in font.bin *)

(** A run that fails has written no line: it has created no font.bin
    when it could not open the source or could not create font.bin, and
    it has created font.bin and left it empty when an allocation
    failed. *)
Theorem main_failure_output (e : env) (r : outcome) :
  main e = Ok r -> status r = 1 ->
  font_bin r =
    match font_file e with
    | Some _ => if bin_creatable e then Some [] else None
    | None => None
    end.
Proof.
  unfold main.
  destruct (font_file e) as [file|]; [|intros [= <-]; reflexivity].
  destruct (bin_creatable e); [|intros [= <-]; reflexivity].
  cbv zeta. simpl negb. cbv iota.
  destruct (malloc (heap_charData e) _ (old_charData (garbage e)))
    as [fresh|];
    [|intros [= <-]; reflexivity].
  destruct (load_pixels file _ _ fresh) as [data|f]; cbn [bind];
    [|discriminate].
  destruct (malloc (heap_character e) _ (old_character (garbage e)))
    as [character|];
    [|intros [= <-]; reflexivity].
  destruct (print_glyphs data _ _ _ 128 0 character) as [out|f]; cbn [bind];
    [|discriminate].
  intros [= <-]. simpl. discriminate.
Qed.

Lemma main_failure_output_witness :
  exists r,
    main {| argv1 := text "font.bmp"; font_file := Some [];
            bin_creatable := true; heap_charData := false;
            heap_character := true; garbage := zeroed |} = Ok r /\
    font_bin r = Some [].
Proof.
  eexists. split; [reflexivity|].
  apply (main_failure_output
           {| argv1 := text "font.bmp"; font_file := Some [];
              bin_creatable := true; heap_charData := false;
              heap_character := true; garbage := zeroed |});
    reflexivity.
Defined.

(** In every run that ends, acquisitions and releases are in order: no
    stream is opened twice, no block allocated twice, and nothing is
    closed or freed that is not held at that point. *)
Theorem main_events_in_order (e : env) (r : outcome) :
  main e = Ok r -> events_in_order [] (events r) = true.
Proof.
  unfold main.
  destruct (font_file e) as [file|]; [|intros [= <-]; reflexivity].
  destruct (bin_creatable e); [|intros [= <-]; reflexivity].
  cbv zeta. simpl negb. cbv iota.
  destruct (malloc (heap_charData e) _ (old_charData (garbage e)))
    as [fresh|];
    [|intros [= <-]; reflexivity].
  destruct (load_pixels file _ _ fresh) as [data|f]; cbn [bind];
    [|discriminate].
  destruct (malloc (heap_character e) _ (old_character (garbage e)))
    as [character|];
    [|intros [= <-]; reflexivity].
  destruct (print_glyphs data _ _ _ 128 0 character) as [out|f]; cbn [bind];
    [|discriminate].
  intros [= <-]. reflexivity.
Qed.

Lemma main_events_in_order_witness :
  events_in_order [] [Fopen Font; Fclose Font] = true.
Proof.
  apply (main_events_in_order
           {| argv1 := text "font.bmp"; font_file := Some [];
              bin_creatable := false; heap_charData := true;
              heap_character := true; garbage := zeroed |}
           {| status := 1; stderr := msg_create; font_bin := None;
              events := [Fopen Font; Fclose Font] |}).
  reflexivity.
Defined.

Lemma concat_uniform (lines : list (list ascii)) (n : nat) :
  Forall (fun l => length l = n) lines ->
  length (concat lines) = (length lines * n)%nat.
Proof.
  induction 1 as [|l ls Hl _ IH]; [reflexivity|].
  simpl. rewrite length_app, IH, Hl. reflexivity.
Qed.

Lemma toBinary_chars v width line :
  0 <= width <= INT_MAX -> toBinary v width = Ok line ->
  Forall bin_char line.
Proof.
  intros Hw H. apply toBinary_spec in H as (Hlen & Hdigits & Hnl);
    [|exact Hw].
  apply Forall_lookup. intros j c Hc.
  pose proof (lookup_lt_Some _ _ _ Hc) as Hj.
  destruct (Z.lt_ge_cases (Z.of_nat j) width) as [Hlt|Hge].
  - pose proof (Hdigits (Z.of_nat j) ltac:(lia)) as Hd.
    rewrite Nat2Z.id in Hd. rewrite Hd in Hc. inversion Hc.
    unfold bin_char, bit_char. destruct (Z.testbit _ _); auto.
  - replace j with (Z.to_nat width) in Hc by lia.
    rewrite Hnl in Hc. inversion Hc. unfold bin_char. auto.
Qed.

Lemma print_glyphs_first data cw ch dpl n i character out :
  print_glyphs data cw ch dpl (S n) i character = Ok out ->
  exists rows, assembleCharacter data i cw ch dpl character = Ok rows.
Proof.
  cbn [print_glyphs]. intros H.
  apply bind_Ok in H as (rows & Hrows & _). eauto.
Qed.

(** The lines of a text [print_glyphs] has written, as a whole. *)
Lemma print_glyphs_lines data cw ch dpl n i character out :
  0 <= i -> print_glyphs data cw ch dpl n i character = Ok out ->
  exists lines,
    out = concat lines /\ length lines = (n * Z.to_nat ch)%nat /\
    Forall (fun line => exists v, toBinary v cw = Ok line) lines /\
    forall k t, (k < n)%nat -> (t < Z.to_nat ch)%nat ->
      exists c rows v line,
        length c = length character /\
        assembleCharacter data (i + Z.of_nat k) cw ch dpl c = Ok rows /\
        rows !! t = Some v /\ toBinary v cw = Ok line /\
        lines !! (k * Z.to_nat ch + t)%nat = Some line.
Proof.
  intros Hi H.
  apply print_glyphs_spec in H as (lines & -> & Hlen & Hget); [|exact Hi].
  exists lines. split; [reflexivity|]. split; [exact Hlen|].
  split; [|exact Hget].
  apply Forall_lookup. intros idx line Hline.
  pose proof (lookup_lt_Some _ _ _ Hline) as Hidx. rewrite Hlen in Hidx.
  assert (Hch : (0 < Z.to_nat ch)%nat) by nia.
  pose proof (Nat.div_mod_eq idx (Z.to_nat ch)) as Hdm.
  pose proof (Nat.mod_upper_bound idx (Z.to_nat ch) ltac:(lia)) as Hm.
  assert (Hk : (idx / Z.to_nat ch < n)%nat)
    by (apply Nat.Div0.div_lt_upper_bound; lia).
  destruct (Hget _ _ Hk Hm) as (c & rows & v & line' & _ & _ & _ & Hb & Hl).
  replace (idx / Z.to_nat ch * Z.to_nat ch + idx mod Z.to_nat ch)%nat
    with idx in Hl by lia.
  exists v. congruence.
Qed.

(** A run that ends with status 0 leaves in font.bin exactly
    [128 * charHeight * (charWidth + 1)] characters, each of them '0',
    '1' or the line terminator. *)
Theorem font_bin_size (e : env) (r : outcome) :
  main e = Ok r -> status r = 0 ->
  exists file out,
    font_file e = Some file /\ font_bin r = Some out /\
    let g := read_geometry file (garbage e) in
    Z.of_nat (length out) = 128 * charHeight g * (charWidth g + 1) /\
    Forall bin_char out.
Proof.
  unfold main. intros Hrun Hstatus.
  destruct (font_file e) as [file|];
    [|inversion Hrun; subst r; discriminate].
  destruct (bin_creatable e);
    [|inversion Hrun; subst r; discriminate].
  cbv zeta in Hrun. simpl negb in Hrun. cbv iota in Hrun.
  pose proof (read_geometry_bounds file (garbage e)) as [Hcw _].
  set (g := read_geometry file (garbage e)) in *.
  destruct (malloc (heap_charData e) _ (old_charData (garbage e)))
    as [fresh|] eqn:Hm1;
    [|inversion Hrun; subst r; discriminate].
  destruct (load_pixels file _ g fresh) as [data|f] eqn:Hload;
    cbn [bind] in Hrun; [|discriminate].
  destruct (malloc (heap_character e) _ (old_character (garbage e)))
    as [character|] eqn:Hm2;
    [|inversion Hrun; subst r; discriminate].
  destruct (print_glyphs data _ _ _ 128 0 character) as [out|f] eqn:Hout;
    cbn [bind] in Hrun; [|discriminate].
  inversion Hrun; subst r. clear Hrun Hstatus. cbn [font_bin].
  apply malloc_Some in Hm2 as [Hch Hlc].
  exists file, out. split; [reflexivity|]. split; [reflexivity|].
  cbv zeta. fold g.
  destruct (Z.eq_dec (charHeight g) 0) as [Hz|Hnz].
  - rewrite Hz in *.
    apply print_glyphs_lines in Hout as (lines & -> & Hlen & _); [|lia].
    change (Z.to_nat 0) with 0%nat in Hlen. rewrite Nat.mul_0_r in Hlen.
    destruct lines; [|discriminate Hlen].
    split; [reflexivity | constructor].
  - assert (Hcw0 : 0 <= charWidth g).
    { destruct (Z.lt_ge_cases (charWidth g) 0) as [Hneg|]; [|assumption].
      apply print_glyphs_first in Hout as [rows Hrows].
      rewrite assembleCharacter_negative_width in Hrows by lia.
      discriminate. }
    apply print_glyphs_lines in Hout as (lines & -> & Hlen & Hlines & _);
      [|lia].
    split.
    + rewrite (concat_uniform lines (Z.to_nat (charWidth g + 1))).
      * rewrite Hlen, !Nat2Z.inj_mul, !Z2Nat.id by lia. reflexivity.
      * eapply Forall_impl; [exact Hlines|].
        intros line [v Hv].
        apply toBinary_spec in Hv as (Hl & _); [lia | unfold INT_MAX; lia].
    + apply Forall_concat.
      eapply Forall_impl; [exact Hlines|].
      intros line [v Hv].
      apply (toBinary_chars v (charWidth g)); [unfold INT_MAX; lia | exact Hv].
Qed.

Lemma font_bin_size_witness :
  exists r out,
    main {| argv1 := text "font.bmp";
            font_file :=
              Some (replicate 10 x00 ++ [x1a; x00; x00; x00]
                    ++ replicate 4 x00 ++ [x40; x00; x00; x00]
                    ++ [x02; x00; x00; x00] ++ replicate 16 xaa);
            bin_creatable := true; heap_charData := true;
            heap_character := true; garbage := zeroed |} = Ok r /\
    font_bin r = Some out /\ Z.of_nat (length out) = 256.
Proof.
  set (e := {| argv1 := text "font.bmp";
               font_file :=
                 Some (replicate 10 x00 ++ [x1a; x00; x00; x00]
                       ++ replicate 4 x00 ++ [x40; x00; x00; x00]
                       ++ [x02; x00; x00; x00] ++ replicate 16 xaa);
               bin_creatable := true; heap_charData := true;
               heap_character := true; garbage := zeroed |}).
  destruct (main e) as [r|f] eqn:Hmain; [|vm_compute in Hmain; discriminate].
  destruct (font_bin_size e r Hmain) as (file & out & Hfile & Hbin & H).
  - pose proof Hmain as Hm. vm_compute in Hm. inversion Hm. reflexivity.
  - cbv zeta in H. destruct H as [Hlen _].
    injection Hfile as <-.
    exists r, out. split; [reflexivity|]. split; [exact Hbin | exact Hlen].
Defined.

(** ** Glyph cells in the buffer *)

Lemma assembleCharacter_high data a cw ch dpl character rows j :
  assembleCharacter data a cw ch dpl character = Ok rows ->
  (Z.to_nat ch <= j)%nat -> rows !! j = character !! j.
Proof.
  unfold assembleCharacter. intros H Hj.
  destruct (onBoundary _ cw =? 0);
    apply (scan_frame_high _ _ _ _ _ _ _ (Z.le_refl 0) H); simpl; lia.
Qed.

Lemma bits_above_range v N n :
  0 <= v < 2 ^ N -> N <= n -> Z.testbit v n = false.
Proof.
  intros Hv Hn. destruct (Z.le_gt_cases 0 N) as [HN|HN].
  - rewrite <- (Z.mod_small v (2 ^ N)) by lia.
    apply Z.mod_pow2_bits_high. lia.
  - rewrite Z.pow_neg_r in Hv by lia. lia.
Qed.

(** The rows of a glyph depend on the pixels of its own cell only: two
    buffers that agree there give the same result, whatever else they
    hold. *)
Theorem glyph_depends_on_its_cell (d1 d2 : list Z) (cw ch dpl a : Z)
    (character : list Z) :
  1 <= cw <= 31 -> 1 <= ch -> dpl = 2 * cw ->
  128 * cw * ch <= INT_MAX ->
  128 * cw * ch <= 32 * Z.of_nat (length d1) ->
  128 * cw * ch <= 32 * Z.of_nat (length d2) ->
  (Z.to_nat ch <= length character)%nat ->
  0 <= a <= 127 ->
  (forall s p, 0 <= s < ch -> 0 <= p < cw ->
     pixel d1 (cell_bit cw ch dpl a s p) = pixel d2 (cell_bit cw ch dpl a s p)) ->
  assembleCharacter d1 a cw ch dpl character =
  assembleCharacter d2 a cw ch dpl character.
Proof.
  intros Hcw Hch Hdpl Hsize Hl1 Hl2 Hc Ha Hsame.
  destruct (assembleCharacter_pixels d1 cw ch dpl character a)
    as (r1 & H1 & Hlen1 & Hrows1); try lia.
  destruct (assembleCharacter_pixels d2 cw ch dpl character a)
    as (r2 & H2 & Hlen2 & Hrows2); try lia.
  rewrite H1, H2. f_equal. apply list_eq. intros j.
  destruct (Nat.lt_ge_cases j (Z.to_nat ch)) as [Hj|Hj].
  - destruct (Hrows1 (Z.of_nat j) ltac:(lia)) as (v1 & Hv1 & Hr1 & Hp1).
    destruct (Hrows2 (Z.of_nat j) ltac:(lia)) as (v2 & Hv2 & Hr2 & Hp2).
    rewrite Nat2Z.id in Hv1, Hv2. rewrite Hv1, Hv2. f_equal.
    apply Z.bits_inj'. intros n Hn.
    destruct (Z.lt_ge_cases n cw) as [Hlt|Hge].
    + replace n with (cw - 1 - (cw - 1 - n)) by lia.
      rewrite Hp1, Hp2 by lia. apply Hsame; lia.
    + rewrite !(bits_above_range _ cw) by (assumption || lia). reflexivity.
  - rewrite (assembleCharacter_high _ _ _ _ _ _ _ _ H1 Hj).
    rewrite (assembleCharacter_high _ _ _ _ _ _ _ _ H2 Hj). reflexivity.
Qed.

Lemma glyph_depends_on_its_cell_witness :
  assembleCharacter (replicate 20 2863311530) 6 5 1 10 [0] =
  assembleCharacter (replicate 19 2863311530 ++ [0]) 6 5 1 10 [0].
Proof.
  apply glyph_depends_on_its_cell.
  - lia.
  - lia.
  - reflexivity.
  - vm_compute. discriminate.
  - simpl. lia.
  - simpl. lia.
  - simpl. lia.
  - lia.
  - intros s p Hs Hp.
    assert (s = 0) as -> by lia.
    assert (p = 0 \/ p = 1 \/ p = 2 \/ p = 3 \/ p = 4) as Hcases by lia.
    destruct Hcases as [-> | [-> | [-> | [-> | ->]]]]; reflexivity.
Defined.

(** The bit [assembleCharacter] reads for pixel [p] of scanline [s] of
    the glyph of code [a], on a sheet whose bits can be counted in an
    [int]. *)
Lemma scanline_bits cw ch dpl a s :
  1 <= cw -> 1 <= ch -> dpl = 2 * cw -> 128 * cw * ch <= INT_MAX ->
  0 <= a <= 127 -> 0 <= s < ch ->
  bits_at dpl (glyph_bits a cw ch dpl) (Z.to_nat s) = cell_bit cw ch dpl a s 0.
Proof.
  intros Hcw Hch Hdpl Hsize Ha Hs.
  assert (Hd : dpl * 32 = 64 * cw) by lia.
  assert (Hbits : glyph_bits a cw ch dpl = cell_bit cw ch dpl a 0 0).
  { rewrite glyph_bits_wrap, glyph_bits_cell by lia.
    apply wrap_int_id.
    destruct (cell_bit_range cw ch dpl a 0 0); try lia.
    unfold is_int, INT_MIN, INT_MAX in *. lia. }
  destruct (cell_bit_range cw ch dpl a 0 0) as [Hlo _]; try lia.
  destruct (cell_bit_range cw ch dpl a s 0) as [_ Hhi]; try lia.
  rewrite Hbits, bits_at_exact; try lia.
  - rewrite Z2Nat.id by lia. unfold cell_bit. lia.
  - rewrite Z2Nat.id by lia.
    replace (cell_bit cw ch dpl a 0 0 + s * (dpl * 32))
      with (cell_bit cw ch dpl a s 0) by (unfold cell_bit; lia).
    lia.
Qed.

Lemma cell_bit_unique cw ch a s p a' s' p' :
  1 <= cw -> 1 <= ch ->
  0 <= a <= 127 -> 0 <= s < ch -> 0 <= p < cw ->
  0 <= a' <= 127 -> 0 <= s' < ch -> 0 <= p' < cw ->
  cell_bit cw ch (2 * cw) a s p = cell_bit cw ch (2 * cw) a' s' p' ->
  a = a' /\ s = s' /\ p = p'.
Proof.
  intros Hcw Hch Ha Hs Hp Ha' Hs' Hp' Heq. unfold cell_bit in Heq.
  assert (Hq : 0 <= a / 64 <= 1) by (Z.div_mod_to_equations; lia).
  assert (Hq' : 0 <= a' / 64 <= 1) by (Z.div_mod_to_equations; lia).
  pose proof (Z.mod_pos_bound a 64 ltac:(lia)) as Hm.
  pose proof (Z.mod_pos_bound a' 64 ltac:(lia)) as Hm'.
  assert (HX : 0 <= a mod 64 * cw + p < 64 * cw) by nia.
  assert (HX' : 0 <= a' mod 64 * cw + p' < 64 * cw) by nia.
  destruct (Z.div_mod_unique (64 * cw) (a / 64 * ch + s) (a' / 64 * ch + s')
              (a mod 64 * cw + p) (a' mod 64 * cw + p'))
    as [HR HXe]; [lia | lia | lia |].
  destruct (Z.div_mod_unique cw (a mod 64) (a' mod 64) p p')
    as [Hme Hpe]; [lia | lia | lia |].
  destruct (Z.div_mod_unique ch (a / 64) (a' / 64) s s')
    as [Hqe Hse]; [lia | lia | lia |].
  split; [|split; assumption].
  rewrite (Z.div_mod a 64), (Z.div_mod a' 64) by lia. congruence.
Qed.

(** The glyph cells tile the sheet: on a sheet whose bits can be
    counted in an [int], the bits [assembleCharacter] reads for two
    different pixels (of any codes 0..127, scanlines and columns) are
    different, and every bit of the sheet is read for some pixel. *)
Theorem glyph_cells_tile_sheet (cw ch : Z) :
  1 <= cw -> 1 <= ch -> 128 * cw * ch <= INT_MAX ->
  let bit a s p :=
    bits_at (2 * cw) (glyph_bits a cw ch (2 * cw)) (Z.to_nat s) + p in
  (forall a s p a' s' p',
     0 <= a <= 127 -> 0 <= s < ch -> 0 <= p < cw ->
     0 <= a' <= 127 -> 0 <= s' < ch -> 0 <= p' < cw ->
     bit a s p = bit a' s' p' -> a = a' /\ s = s' /\ p = p') /\
  (forall B, 0 <= B < 128 * cw * ch ->
     exists a s p,
       0 <= a <= 127 /\ 0 <= s < ch /\ 0 <= p < cw /\ bit a s p = B).
Proof.
  intros Hcw Hch Hsize bit.
  assert (Hbit : forall a s p, 0 <= a <= 127 -> 0 <= s < ch ->
                               bit a s p = cell_bit cw ch (2 * cw) a s p).
  { intros a s p Ha Hs. unfold bit.
    rewrite scanline_bits by (auto; lia). unfold cell_bit. lia. }
  split.
  - intros a s p a' s' p' Ha Hs Hp Ha' Hs' Hp' Heq.
    rewrite !Hbit in Heq by assumption.
    apply (cell_bit_unique cw ch); assumption.
  - intros B HB.
    set (R := B / (64 * cw)). set (X := B mod (64 * cw)).
    assert (HBRX : B = 64 * cw * R + X) by (apply Z.div_mod; lia).
    assert (HX : 0 <= X < 64 * cw) by (apply Z.mod_pos_bound; lia).
    assert (HR : 0 <= R < 2 * ch).
    { split; [apply Z.div_pos; lia|].
      apply Z.div_lt_upper_bound; [lia|]. nia. }
    pose proof (Z.div_mod X cw ltac:(lia)) as HXd.
    pose proof (Z.mod_pos_bound X cw ltac:(lia)) as HXm.
    assert (Hm : 0 <= X / cw < 64).
    { split; [apply Z.div_pos; lia|].
      apply Z.div_lt_upper_bound; lia. }
    pose proof (Z.div_mod R ch ltac:(lia)) as HRd.
    pose proof (Z.mod_pos_bound R ch ltac:(lia)) as HRm.
    assert (Hq : 0 <= R / ch < 2).
    { split; [apply Z.div_pos; lia|].
      apply Z.div_lt_upper_bound; lia. }
    exists (64 * (R / ch) + X / cw), (R mod ch), (X mod cw).
    split; [lia|]. split; [lia|]. split; [lia|].
    rewrite Hbit by lia. unfold cell_bit.
    replace ((64 * (R / ch) + X / cw) / 64) with (R / ch)
      by (apply (Z.div_unique _ 64 _ (X / cw)); lia).
    replace ((64 * (R / ch) + X / cw) mod 64) with (X / cw)
      by (apply (Z.mod_unique _ 64 (R / ch)); lia).
    nia.
Qed.

Lemma glyph_cells_tile_sheet_witness :
  exists a s p,
    0 <= a <= 127 /\ 0 <= s < 2 /\ 0 <= p < 5 /\
    bits_at (2 * 5) (glyph_bits a 5 2 (2 * 5)) (Z.to_nat s) + p = 1000.
Proof.
  destruct (glyph_cells_tile_sheet 5 2) as [_ H];
    [lia | lia | vm_compute; discriminate |].
  apply H. lia.
Defined.

(** ** From the bitmap to font.bin *)

Lemma be32_bytes b0 b1 b2 b3 :
  byte_of (be32 b0 b1 b2 b3) 3 = byte_val b0 /\
  byte_of (be32 b0 b1 b2 b3) 2 = byte_val b1 /\
  byte_of (be32 b0 b1 b2 b3) 1 = byte_val b2 /\
  byte_of (be32 b0 b1 b2 b3) 0 = byte_val b3.
Proof.
  rewrite <- swapEndian32_le32.
  pose proof (le32_is_u32 b0 b1 b2 b3) as Hu.
  rewrite !swapEndian32_byte by (auto; lia).
  change (3 - 3) with 0. change (3 - 2) with 1.
  change (3 - 1) with 2. change (3 - 0) with 3.
  destruct (le32_bytes b0 b1 b2 b3) as (-> & -> & -> & ->). auto.
Qed.

(** Pixel [q] of a stored word, counted from the left, is bit
    [7 - q mod 8] of byte [q / 8] of the four bytes read. *)
Lemma be32_pixel b0 b1 b2 b3 q :
  0 <= q < 32 ->
  Z.testbit (be32 b0 b1 b2 b3) (31 - q) =
  Z.testbit (byte_val (if q <? 8 then b0 else if q <? 16 then b1
                       else if q <? 24 then b2 else b3))
            (7 - q mod 8).
Proof.
  intros Hq.
  destruct (be32_bytes b0 b1 b2 b3) as (H3 & H2 & H1 & H0).
  pose proof (Z.mod_pos_bound q 8 ltac:(lia)) as Hm.
  pose proof (Z.div_mod q 8 ltac:(lia)) as Hd.
  Z.destruct_ltbs.
  - rewrite <- H3, byte_of_testbit by lia.
    destruct (Z.ltb_spec (7 - q mod 8) 8); [|lia]. simpl. f_equal. lia.
  - rewrite <- H2, byte_of_testbit by lia.
    destruct (Z.ltb_spec (7 - q mod 8) 8); [|lia]. simpl. f_equal. lia.
  - rewrite <- H1, byte_of_testbit by lia.
    destruct (Z.ltb_spec (7 - q mod 8) 8); [|lia]. simpl. f_equal. lia.
  - rewrite <- H0, byte_of_testbit by lia.
    destruct (Z.ltb_spec (7 - q mod 8) 8); [|lia]. simpl. f_equal. lia.
Qed.

Lemma fread32_in_file file P :
  0 <= P -> P + 4 <= Z.of_nat (length file) ->
  exists b0 b1 b2 b3,
    file !! Z.to_nat P = Some b0 /\ file !! Z.to_nat (P + 1) = Some b1 /\
    file !! Z.to_nat (P + 2) = Some b2 /\ file !! Z.to_nat (P + 3) = Some b3 /\
    forall old, fread32 file P old = (P + 4, le32 b0 b1 b2 b3).
Proof.
  intros HP Hlen.
  destruct (lookup_lt_is_Some_2 file (Z.to_nat P) ltac:(lia)) as [b0 H0].
  destruct (lookup_lt_is_Some_2 file (Z.to_nat (P + 1)) ltac:(lia)) as [b1 H1].
  destruct (lookup_lt_is_Some_2 file (Z.to_nat (P + 2)) ltac:(lia)) as [b2 H2].
  destruct (lookup_lt_is_Some_2 file (Z.to_nat (P + 3)) ltac:(lia)) as [b3 H3].
  exists b0, b1, b2, b3. repeat split; auto.
  intros old. apply fread32_bytes; auto.
Qed.

(** With the whole header in the file the stream is left at byte 26. *)
Lemma header_end_full file garbage :
  26 <= Z.of_nat (length file) -> header_end file garbage = 26.
Proof.
  intros Hlen. unfold header_end, read_header, fread_int. cbn [fst].
  set (r1 := fread32 file (fseek 0 10) _).
  change (fseek (fst r1) (14 + 4)) with 18.
  destruct (fread32_in_file file 18) as (b0 & b1 & b2 & b3 & _ & _ & _ & _ & H18);
    [lia | lia |].
  rewrite H18. cbn [fst].
  destruct (fread32_in_file file (18 + 4))
    as (c0 & c1 & c2 & c3 & _ & _ & _ & _ & H22); [lia | lia |].
  rewrite H22. reflexivity.
Qed.

(** A pixel of the loaded buffer, read from the file: the rows of the
    file run from the bottom of the sheet up, each [4 * dpl] bytes
    long, eight pixels to a byte with the leftmost on top. *)
Lemma loaded_pixel file dpl ih pos fresh data x y :
  0 <= dpl -> 0 <= ih -> dpl * ih <= INT_MAX -> 0 <= pos ->
  length fresh = Z.to_nat (dpl * ih) ->
  pos + 4 * dpl * ih <= Z.of_nat (length file) ->
  read_rows file dpl (Z.to_nat ih) pos fresh = Ok data ->
  0 <= y < ih -> 0 <= x < dpl * 32 ->
  exists b,
    file !! Z.to_nat (pos + 4 * dpl * (ih - 1 - y) + x / 8) = Some b /\
    pixel data (y * (dpl * 32) + x) = Z.testbit (byte_val b) (7 - x mod 8).
Proof.
  intros Hdpl Hih Hsize Hpos Hlen Hfile Hrun Hy Hx.
  destruct (read_rows_spec file dpl (Z.to_nat ih) pos pos fresh)
    as (data' & Hrun' & _ & Hget & _);
    [ exact Hpos | left; reflexivity | exact Hdpl
    | rewrite Hlen, !Z2Nat.id by nia; lia
    | rewrite Z2Nat.id by lia; lia | ].
  rewrite Hrun in Hrun'. inversion Hrun'; subst data'. clear Hrun'.
  set (j := x / 32). set (q := x mod 32).
  assert (Hxq : x = 32 * j + q) by (apply Z.div_mod; lia).
  assert (Hq : 0 <= q < 32) by (apply Z.mod_pos_bound; lia).
  assert (Hj : 0 <= j < dpl) by (subst j; Z.div_mod_to_equations; lia).
  set (P := pos + 4 * (Z.of_nat (Z.to_nat (ih - 1 - y)) * dpl + j)).
  assert (HP : P = pos + 4 * dpl * (ih - 1 - y) + 4 * j)
    by (subst P; rewrite Z2Nat.id by lia; lia).
  destruct (fread32_in_file file P) as (b0 & b1 & b2 & b3 & H0 & H1 & H2 & H3 & Hw);
    [nia | nia |].
  assert (Hin : (Z.to_nat (y * dpl + j) < length fresh)%nat)
    by (rewrite Hlen; nia).
  destruct (lookup_lt_is_Some_2 _ _ Hin) as [old Hold].
  pose proof (Hget (Z.to_nat (ih - 1 - y)) j old ltac:(lia) Hj) as Hcell.
  replace ((Z.of_nat (Z.to_nat ih) - 1 - Z.of_nat (Z.to_nat (ih - 1 - y)))
           * dpl + j) with (y * dpl + j) in Hcell by lia.
  specialize (Hcell Hold). fold P in Hcell.
  rewrite Hw in Hcell. cbn [snd] in Hcell.
  rewrite swapEndian32_le32 in Hcell.
  assert (HB : (y * (dpl * 32) + x) / 32 = y * dpl + j /\
               (y * (dpl * 32) + x) mod 32 = q).
  { replace (y * (dpl * 32) + x) with (q + (y * dpl + j) * 32) by lia.
    split.
    - rewrite Z.div_add, Z.div_small by lia. lia.
    - rewrite Z.mod_add, Z.mod_small by lia. reflexivity. }
  destruct HB as [HBd HBm].
  unfold pixel. rewrite HBd, HBm, Hcell, be32_pixel by lia.
  assert (Hq8 : q mod 8 = x mod 8).
  { rewrite Hxq. replace (32 * j + q) with (q + 4 * j * 8) by lia.
    rewrite Z.mod_add by lia. reflexivity. }
  assert (Hx8 : x / 8 = 4 * j + q / 8).
  { rewrite Hxq. replace (32 * j + q) with (q + 4 * j * 8) by lia.
    rewrite Z.div_add by lia. lia. }
  rewrite Hq8, Hx8.
  assert (Hq8d : 0 <= q / 8 < 4) by (Z.div_mod_to_equations; lia).
  Z.destruct_ltbs.
  - exists b0. split; [|reflexivity].
    rewrite <- H0. f_equal. rewrite HP.
    assert (q / 8 = 0) by (Z.div_mod_to_equations; lia). lia.
  - exists b1. split; [|reflexivity].
    rewrite <- H1. f_equal. rewrite HP.
    assert (q / 8 = 1) by (Z.div_mod_to_equations; lia). lia.
  - exists b2. split; [|reflexivity].
    rewrite <- H2. f_equal. rewrite HP.
    assert (q / 8 = 2) by (Z.div_mod_to_equations; lia). lia.
  - exists b3. split; [|reflexivity].
    rewrite <- H3. f_equal. rewrite HP.
    assert (q / 8 = 3) by (Z.div_mod_to_equations; lia). lia.
Qed.

(** A character of a text made of lines of one length. *)
Lemma lookup_concat_uniform (lines : list (list ascii)) (n : nat) :
  Forall (fun l => length l = n) lines ->
  forall k p line, lines !! k = Some line -> (p < n)%nat ->
    concat lines !! (k * n + p)%nat = line !! p.
Proof.
  induction 1 as [|l ls Hl _ IH]; intros k p line Hk Hp; [discriminate|].
  destruct k as [|k]; cbn [concat].
  - injection Hk as ->. apply lookup_app_l. simpl. lia.
  - rewrite lookup_app_r by (simpl; lia).
    replace (S k * n + p - length l)%nat with (k * n + p)%nat
      by (simpl; lia).
    apply IH; assumption.
Qed.

(** End to end.  Take a bitmap whose header declares glyphs 1 to 31
    pixels wide, at least two pixel rows and no more than [INT_MAX]
    bits, and which holds all its pixel rows ([8 * charWidth] bytes
    each, bottom row first) from the pixel-data offset on.  When both
    files open and both buffers are granted, the run ends with status 0
    and font.bin holds [128 * charHeight] lines of [charWidth + 1]
    characters.  The line of code [a] and scanline [s] starts at
    character [(a * charHeight + s) * (charWidth + 1)]; it ends with the
    line terminator, and before it character [p] is '1' or '0' as the
    pixel in column [(a mod 64) * charWidth + p] of the row
    [(a / 64) * charHeight + s] from the top is set or clear in the
    file: bit [7 - x mod 8] of byte [x / 8] of that row. *)
Theorem font_bin_from_bitmap (e : env) (file : list byte) :
  font_file e = Some file -> bin_creatable e = true ->
  heap_charData e = true -> heap_character e = true ->
  let g := read_geometry file (garbage e) in
  let cw := charWidth g in
  let ch := charHeight g in
  let ih := imageHeight g in
  let pos := fseek (0x0E + 4 + 4 + 4) (pixelDataOffset g) in
  1 <= cw <= 31 -> 2 <= ih -> 64 * cw * ih <= INT_MAX ->
  pos + 8 * cw * ih <= Z.of_nat (length file) ->
  exists r out,
    main e = Ok r /\ status r = 0 /\ font_bin r = Some out /\
    Z.of_nat (length out) = 128 * ch * (cw + 1) /\
    forall a s,
      0 <= a <= 127 -> 0 <= s < ch ->
      let first := (a * ch + s) * (cw + 1) in
      out !! Z.to_nat (first + cw) = Some newline /\
      forall p, 0 <= p < cw ->
        let x := a mod 64 * cw + p in
        let y := a / 64 * ch + s in
        exists b,
          file !! Z.to_nat (pos + 8 * cw * (ih - 1 - y) + x / 8) = Some b /\
          out !! Z.to_nat (first + p)
            = Some (bit_char (Z.testbit (byte_val b) (7 - x mod 8))).
Proof.
  intros Hfile Hbin Hroom1 Hroom2 g cw ch ih pos Hcw Hih Hsize Hlong.
  destruct (main_valid_sheet e file Hfile Hbin Hroom1 Hroom2 Hcw Hih Hsize)
    as (fresh & data & character & out
        & _ & Hl1 & Hload & Hlen & _ & Hl2 & Hout & Hrun).
  fold g in Hl1, Hload, Hl2, Hout. fold cw ch in Hl2, Hout.
  fold ih in Hl1.
  destruct (read_geometry_lines file (garbage e)) as (_ & Hdpl & _).
  fold g in Hdpl. fold cw in Hdpl. set (dpl := dwordsPerLine g) in *.
  assert (Hch : 1 <= ch /\ 2 * ch <= ih).
  { subst ch ih. unfold g, read_geometry, read_header.
    cbn [snd charHeight imageHeight].
    unfold g, read_geometry, read_header in Hih. cbn [snd imageHeight] in Hih.
    Z.quot_rem_to_equations. lia. }
  unfold INT_MAX in Hsize.
  pose proof (header_end_range file (garbage e)) as Hend.
  assert (Hpos : 0 <= pos).
  { subst pos. unfold fseek.
    destruct (Z.ltb_spec (pixelDataOffset g) 0); lia. }
  assert (Hseek : fseek (header_end file (garbage e)) (pixelDataOffset g)
                  = pos).
  { subst pos. unfold fseek in *.
    destruct (Z.ltb_spec (pixelDataOffset g) 0); [|reflexivity].
    apply header_end_full. nia. }
  assert (Hrows : read_rows file dpl (Z.to_nat ih) pos fresh = Ok data).
  { unfold load_pixels in Hload. fold dpl ih in Hload.
    rewrite Hseek in Hload.
    rewrite int_sub_id in Hload
      by (unfold is_int, INT_MIN, INT_MAX; nia).
    replace (ih - 1 + 1) with ih in Hload by lia. exact Hload. }
  apply print_glyphs_lines in Hout as (lines & -> & Hlines & Hall & Hget);
    [|lia].
  assert (Huni : Forall (fun l => length l = Z.to_nat (cw + 1)) lines).
  { eapply Forall_impl; [exact Hall|].
    intros line [v Hv].
    apply toBinary_spec in Hv as (Hl & _); [lia | unfold INT_MAX; lia]. }
  exists {| status := 0; stderr := []; font_bin := Some (concat lines);
            events := [Fopen Font; Fopen Bin; Malloc CharData;
                       Malloc Character; Free CharData; Free Character;
                       Fclose Font; Fclose Bin] |}, (concat lines).
  split; [exact Hrun|]. split; [reflexivity|]. split; [reflexivity|].
  split.
  { rewrite (concat_uniform lines _ Huni), Hlines.
    rewrite !Nat2Z.inj_mul, !Z2Nat.id by lia. reflexivity. }
  intros a s Ha Hs first.
  destruct (Hget (Z.to_nat a) (Z.to_nat s) ltac:(lia) ltac:(lia))
    as (c & rows & v & line & Hc & Hcall & Hv & Hline & Hlook).
  rewrite Z.add_0_l, Z2Nat.id in Hcall by lia.
  replace (Z.to_nat a * Z.to_nat ch + Z.to_nat s)%nat
    with (Z.to_nat (a * ch + s)) in Hlook by nia.
  assert (Hat : forall p, 0 <= p < cw + 1 ->
            concat lines !! Z.to_nat (first + p) = line !! Z.to_nat p).
  { intros p Hp.
    replace (Z.to_nat (first + p))
      with (Z.to_nat (a * ch + s) * Z.to_nat (cw + 1) + Z.to_nat p)%nat
      by (subst first; nia).
    apply (lookup_concat_uniform lines _ Huni); [exact Hlook | lia]. }
  apply toBinary_spec in Hline as (_ & Hdigits & Hnl);
    [|unfold INT_MAX; lia].
  split; [rewrite Hat by lia; exact Hnl|].
  intros p Hp x y.
  destruct (assembleCharacter_pixels data cw ch dpl c a)
    as (rows' & Hcall' & _ & Hpix); try (unfold INT_MAX; nia); try lia.
  rewrite Hcall in Hcall'. inversion Hcall'; subst rows'. clear Hcall'.
  destruct (Hpix s Hs) as (v' & Hv' & _ & Hbits).
  rewrite Hv in Hv'. inversion Hv'; subst v'. clear Hv'.
  assert (Hx : 0 <= x < dpl * 32).
  { subst x. pose proof (Z.mod_pos_bound a 64 ltac:(lia)). nia. }
  assert (Hy : 0 <= y < ih).
  { subst y. assert (0 <= a / 64 <= 1) by (Z.div_mod_to_equations; lia).
    nia. }
  assert (H1 : 0 <= dpl) by lia.
  assert (H2 : 0 <= ih) by lia.
  assert (H3 : dpl * ih <= INT_MAX) by (unfold INT_MAX; nia).
  assert (H5 : pos + 4 * dpl * ih <= Z.of_nat (length file)) by nia.
  destruct (loaded_pixel file dpl ih pos fresh data x y
              H1 H2 H3 Hpos Hl1 H5 Hrows Hy Hx) as (b & Hb & Hpixel).
  exists b. split.
  - rewrite <- Hb. do 2 f_equal. nia.
  - rewrite Hat, Hdigits, Hbits by lia. do 2 f_equal.
    rewrite <- Hpixel. f_equal. subst x y. unfold cell_bit. lia.
Qed.

(** A 64 x 2 sheet whose sixteen pixel bytes are 0xAA: the line of code
    65, the second glyph of the lower row, is "0" and the terminator. *)
Lemma font_bin_from_bitmap_witness :
  exists r out,
    main {| argv1 := text "font.bmp";
            font_file :=
              Some (replicate 10 x00 ++ [x1a; x00; x00; x00]
                    ++ replicate 4 x00 ++ [x40; x00; x00; x00]
                    ++ [x02; x00; x00; x00] ++ replicate 16 xaa);
            bin_creatable := true; heap_charData := true;
            heap_character := true; garbage := zeroed |} = Ok r /\
    status r = 0 /\ font_bin r = Some out /\
    Z.of_nat (length out) = 256 /\
    out !! 130%nat = Some "0"%char /\ out !! 131%nat = Some newline.
Proof.
  destruct (font_bin_from_bitmap
              {| argv1 := text "font.bmp";
                 font_file :=
                   Some (replicate 10 x00 ++ [x1a; x00; x00; x00]
                         ++ replicate 4 x00 ++ [x40; x00; x00; x00]
                         ++ [x02; x00; x00; x00] ++ replicate 16 xaa);
                 bin_creatable := true; heap_charData := true;
                 heap_character := true; garbage := zeroed |}
              (replicate 10 x00 ++ [x1a; x00; x00; x00]
               ++ replicate 4 x00 ++ [x40; x00; x00; x00]
               ++ [x02; x00; x00; x00] ++ replicate 16 xaa))
    as (r & out & Hrun & Hst & Hbin & Hlen & Hat).
  - reflexivity.
  - reflexivity.
  - reflexivity.
  - reflexivity.
  - vm_compute. split; discriminate.
  - vm_compute. discriminate.
  - vm_compute. discriminate.
  - vm_compute. discriminate.
  - exists r, out.
    split; [exact Hrun|]. split; [exact Hst|]. split; [exact Hbin|].
    split; [exact Hlen|].
    destruct (Hat 65 0 ltac:(lia) ltac:(vm_compute; split; congruence))
      as [Hnl Hdig].
    split; [|exact Hnl].
    destruct (Hdig 0 ltac:(vm_compute; split; congruence)) as (b & Hb & Hc).
    vm_compute in Hb. injection Hb as <-. exact Hc.
Defined.

(** ** What [main] reads of the file *)

Lemma fread32_agree f1 f2 P old :
  (forall k, (Z.to_nat P <= k < Z.to_nat P + 4)%nat -> f1 !! k = f2 !! k) ->
  fread32 f1 P old = fread32 f2 P old.
Proof.
  intros H. unfold fread32.
  assert (H' : forall i, (i < 4)%nat ->
            drop (Z.to_nat P) f1 !! i = drop (Z.to_nat P) f2 !! i).
  { intros i Hi. rewrite !lookup_drop. apply H. lia. }
  pose proof (H' 0%nat ltac:(lia)) as E0.
  pose proof (H' 1%nat ltac:(lia)) as E1.
  pose proof (H' 2%nat ltac:(lia)) as E2.
  pose proof (H' 3%nat ltac:(lia)) as E3.
  clear H H'.
  destruct (drop (Z.to_nat P) f1) as [|a0 [|a1 [|a2 [|a3 ra]]]];
    destruct (drop (Z.to_nat P) f2) as [|c0 [|c1 [|c2 [|c3 rc]]]];
    simpl in E0, E1, E2, E3; try discriminate; congruence.
Qed.

Lemma read_row_agree f1 f2 dpl i n : forall j pos charData,
  0 <= pos ->
  (forall k, (Z.to_nat pos <= k)%nat -> f1 !! k = f2 !! k) ->
  read_row f1 dpl n i j pos charData = read_row f2 dpl n i j pos charData.
Proof.
  induction n as [|n IH]; intros j pos charData Hpos H; [reflexivity|].
  cbn [read_row].
  destruct (load charData _) as [old|]; cbn [bind]; [|reflexivity].
  cbv zeta.
  rewrite (fread32_agree f1 f2 pos old) by (intros k Hk; apply H; lia).
  destruct (store charData _ _); cbn [bind]; [|reflexivity].
  pose proof (fread32_pos f2 pos old) as Hnext.
  apply IH; [lia|]. intros k Hk. apply H. lia.
Qed.

Lemma read_row_pos file dpl i n : forall j pos charData r,
  read_row file dpl n i j pos charData = Ok r -> pos <= fst r.
Proof.
  induction n as [|n IH]; intros j pos charData r H.
  - inversion H. simpl. lia.
  - cbn [read_row] in H.
    apply bind_Ok in H as (old & _ & H). cbv zeta in H.
    apply bind_Ok in H as (c' & _ & H).
    apply IH in H. pose proof (fread32_pos file pos old). lia.
Qed.

Lemma read_rows_agree f1 f2 dpl n : forall pos charData,
  0 <= pos ->
  (forall k, (Z.to_nat pos <= k)%nat -> f1 !! k = f2 !! k) ->
  read_rows f1 dpl n pos charData = read_rows f2 dpl n pos charData.
Proof.
  induction n as [|n IH]; intros pos charData Hpos H; [reflexivity|].
  cbn [read_rows].
  rewrite (read_row_agree f1 f2) by assumption.
  destruct (read_row f2 dpl (Z.to_nat dpl) (Z.of_nat n) 0 pos charData)
    as [r|f] eqn:Hr; cbn [bind]; [|reflexivity].
  apply read_row_pos in Hr.
  apply IH; [lia|]. intros k Hk. apply H. lia.
Qed.

Lemma read_header_agree f1 f2 garbage :
  (forall k, (10 <= k < 14)%nat \/ (18 <= k < 26)%nat -> f1 !! k = f2 !! k) ->
  read_header f2 garbage = read_header f1 garbage.
Proof.
  intros H. unfold read_header, fread_int. cbv zeta. cbn [fst snd].
  rewrite (fread32_agree f2 f1 (fseek 0 10)).
  2: { intros k Hk. symmetry. apply H.
       change (Z.to_nat (fseek 0 10)) with 10%nat in Hk. lia. }
  set (r1 := fread32 f1 (fseek 0 10) _).
  change (fseek (fst r1) (14 + 4)) with 18.
  rewrite (fread32_agree f2 f1 18).
  2: { intros k Hk. symmetry. apply H.
       change (Z.to_nat 18) with 18%nat in Hk. lia. }
  set (r2 := fread32 f1 18 _).
  pose proof (fread32_pos f1 18 (wrap_u32 (stack_imageWidth garbage))) as Hr2.
  fold r2 in Hr2.
  rewrite (fread32_agree f2 f1 (fst r2)).
  2: { intros k Hk. symmetry. apply H. lia. }
  reflexivity.
Qed.

(** Of the source file [main] uses the three header fields (bytes
    10..13 and 18..25) and the bytes from the pixel-data offset on, and
    nothing else: a file that agrees with it there gives the same run,
    whatever its signature, its declared bit depth or its palette. *)
Theorem main_reads_fields_and_pixels (e : env) (f1 f2 : list byte) :
  font_file e = Some f1 ->
  (forall k, (10 <= k < 14)%nat \/ (18 <= k < 26)%nat -> f1 !! k = f2 !! k) ->
  (forall k,
     (Z.to_nat (fseek (0x0E + 4 + 4 + 4)
                  (pixelDataOffset (read_geometry f1 (garbage e)))) <= k)%nat ->
     f1 !! k = f2 !! k) ->
  main {| argv1 := argv1 e; font_file := Some f2;
          bin_creatable := bin_creatable e;
          heap_charData := heap_charData e;
          heap_character := heap_character e; garbage := garbage e |}
  = main e.
Proof.
  intros Hfile Hhead Hdata.
  pose proof (read_header_agree f1 f2 (garbage e) Hhead) as Hh.
  assert (Hg : read_geometry f2 (garbage e) = read_geometry f1 (garbage e))
    by (unfold read_geometry; rewrite Hh; reflexivity).
  assert (He : header_end f2 (garbage e) = header_end f1 (garbage e))
    by (unfold header_end; rewrite Hh; reflexivity).
  unfold main. cbn [font_file bin_creatable heap_charData heap_character
                    garbage argv1].
  rewrite Hfile, Hg, He.
  destruct (bin_creatable e); [|reflexivity].
  cbv zeta. simpl negb. cbv iota.
  destruct (malloc (heap_charData e) _ (old_charData (garbage e)))
    as [fresh|]; [|reflexivity].
  assert (Hl : load_pixels f2 (header_end f1 (garbage e))
                 (read_geometry f1 (garbage e)) fresh
               = load_pixels f1 (header_end f1 (garbage e))
                   (read_geometry f1 (garbage e)) fresh).
  { pose proof (header_end_range f1 (garbage e)) as Hend.
    unfold load_pixels. symmetry. apply read_rows_agree.
    - apply fseek_nonneg. lia.
    - intros k Hk. unfold fseek in Hk, Hdata.
      destruct (Z.ltb_spec (pixelDataOffset (read_geometry f1 (garbage e))) 0).
      + destruct (Nat.lt_ge_cases k 26) as [Hlt|Hge].
        * apply Hhead. lia.
        * apply Hdata. lia.
      + apply Hdata. exact Hk. }
  rewrite Hl. reflexivity.
Qed.

Lemma main_reads_fields_and_pixels_witness :
  main {| argv1 := text "font.bmp";
          font_file :=
            Some ([x42; x4d] ++ replicate 8 x00 ++ [x1a; x00; x00; x00]
                  ++ replicate 4 x00 ++ [x40; x00; x00; x00]
                  ++ [x02; x00; x00; x00] ++ replicate 16 xaa);
          bin_creatable := true; heap_charData := true;
          heap_character := true; garbage := zeroed |}
  = main {| argv1 := text "font.bmp";
            font_file :=
              Some (replicate 10 x00 ++ [x1a; x00; x00; x00]
                    ++ replicate 4 xff ++ [x40; x00; x00; x00]
                    ++ [x02; x00; x00; x00] ++ replicate 16 xaa);
            bin_creatable := true; heap_charData := true;
            heap_character := true; garbage := zeroed |}.
Proof.
  apply (main_reads_fields_and_pixels
           {| argv1 := text "font.bmp";
              font_file :=
                Some (replicate 10 x00 ++ [x1a; x00; x00; x00]
                      ++ replicate 4 xff ++ [x40; x00; x00; x00]
                      ++ [x02; x00; x00; x00] ++ replicate 16 xaa);
              bin_creatable := true; heap_charData := true;
              heap_character := true; garbage := zeroed |}
           (replicate 10 x00 ++ [x1a; x00; x00; x00]
            ++ replicate 4 xff ++ [x40; x00; x00; x00]
            ++ [x02; x00; x00; x00] ++ replicate 16 xaa)
           ([x42; x4d] ++ replicate 8 x00 ++ [x1a; x00; x00; x00]
            ++ replicate 4 x00 ++ [x40; x00; x00; x00]
            ++ [x02; x00; x00; x00] ++ replicate 16 xaa)).
  - reflexivity.
  - intros k Hk.
    do 26 (destruct k as [|k]; [try reflexivity; lia|]). lia.
  - intros k Hk.
    change (Z.to_nat _) with 26%nat in Hk.
    do 26 (destruct k as [|k]; [lia|]). reflexivity.
Defined.
